(** * redis-orm-lite: the query engine and the CRUD orchestration

    A shallow embedding of the three variants of the library

    - [Model] and [QueryBuilder]: the schema-bound ORM (redis-orm.ts with
      [RedisORM], [Schema], [Model]; identity field [_id]),
    - [RedisModel]: the schema-less model with the seven query operators and
      the findOne / findOneAndUpdate family (identity field [id]),
    - [RedisModelBasic]: src/redis-orm.ts, the first schema-less model
      ([$gt], [$lt], [$in] only),

    over an explicit Redis keyspace, followed by the properties of the
    specification that concern them.

    Conventions of the embedding.

    - A JavaScript value is JSON data, [undefined], or one of the built-in
      functions that every object inherits. An object is the finite map of
      its own properties, with [Object.prototype] for its prototype: [o[k]]
      is the own property [k] of [o] or else the member [k] of
      [Object.prototype]. An assignment [o[k] = v] creates or replaces the
      own property [k] (the name [__proto__] is taken not to be assigned),
      and an object that is compared is taken not to redefine [toString] or
      [valueOf], so that it converts to the primitive ["[object Object]"].
    - Numbers are IEEE 754 binary64 values ([spec_float]); strings are
      compared by their code units.
    - Where the code iterates over an object and the order can be observed
      ([Object.entries(query)], [Object.keys(sort)]) the object is given by
      the list of its entries, in enumeration order.
    - An [async] method is a computation of the monad [M]: it reads and writes
      the keyspace and either returns or throws.
    - What the JavaScript runtime and its libraries provide (the JSON codec,
      the conversions between numbers and strings, [Array.prototype.sort],
      uuid) is a parameter, the class [Runtime]. *)

From Stdlib Require Import ZArith Ascii String List Bool.
From Stdlib Require Import Floats.SpecFloat.
From stdpp Require Import gmap strings list fin_maps pretty.

#[local] Set Warnings "-register-all".
#[local] Open Scope string_scope.

(** ** JavaScript values *)

Abbreviation number := spec_float.

Inductive value : Type :=
| VUndefined
| VNull
| VBool (b : bool)
| VNumber (n : number)
| VString (s : string)
| VArray (xs : list value)
| VObject (props : gmap string value)
| VFunction (member : string).  (* the function [Object.prototype[member]] *)

(** An object literal / a decoded document: own properties by name. *)
Abbreviation object := (gmap string value).

(** The members of [Object.prototype] that are functions; [constructor] is
    the function [Object]. *)
Definition Object_prototype_functions : list string :=
  ["constructor"; "hasOwnProperty"; "isPrototypeOf"; "propertyIsEnumerable";
   "toLocaleString"; "toString"; "valueOf"; "__defineGetter__";
   "__defineSetter__"; "__lookupGetter__"; "__lookupSetter__"].

(** What an object whose prototype is [Object.prototype] inherits under the
    name [k]. The accessor [__proto__] returns the prototype,
    [Object.prototype] itself: an object without enumerable properties,
    and no object of the caller's. *)
Definition Object_prototype (k : string) : option value :=
  if bool_decide (k ∈ Object_prototype_functions) then Some (VFunction k)
  else if String.eqb k "__proto__" then Some (VObject ∅)
  else None.

(** [o[k]]: the own property [k] of [o], or else the one that [o] inherits
    from [Object.prototype]; [undefined] when there is neither. *)
Definition get (o : object) (k : string) : value :=
  match o !! k with
  | Some v => v
  | None => default VUndefined (Object_prototype k)
  end.

(** [Object.assign(target, source)], [{...target, ...source}]: every own
    property of [source] is written onto [target]. *)
Definition Object_assign (target source : object) : object :=
  source ∪ target.

(** The binary64 format. *)
Definition prec : Z := 53.
Definition emax : Z := 1024.

Definition NaN : number := S754_nan.
Definition of_Z (z : Z) : number := binary_normalize prec emax z 0 false.
Definition mul (x y : number) : number := SFmul prec emax x y.

(** What the runtime provides. *)
Class Runtime : Type := {
  (** [JSON.parse(raw) as T]: the decoded document; [None] when [raw] is not
      the JSON text of an object (a [SyntaxError], or a text that does not
      denote a [T]). *)
  JSON_parse : string → option object;
  (** [JSON.stringify(doc)] *)
  JSON_stringify : object → string;
  (** [StringToNumber], the numeric value of a string *)
  StringToNumber : string → number;
  (** [Number::toString] *)
  Number_toString : number → string;
  (** [Function.prototype.toString] on the function
      [Object.prototype[member]]: a text of the form
      [function name() { [native code] }], whose layout is left to the
      implementation *)
  Function_toString : string → string;
  (** the identifier returned by the n-th call of [uuidv4()] *)
  uuid_of_call : nat → string;
  (** [Array.prototype.sort(comparefn)] *)
  Array_sort : ∀ A : Type, (A → A → number) → list A → list A;
}.

Module JS.

Definition typeof (v : value) : string :=
  match v with
  | VUndefined => "undefined"
  | VNull => "object"
  | VBool _ => "boolean"
  | VNumber _ => "number"
  | VString _ => "string"
  | VArray _ | VObject _ => "object"
  | VFunction _ => "function"
  end.

Definition Array_isArray (v : value) : bool :=
  match v with VArray _ => true | _ => false end.

(** [ToBoolean]: the falsy values are [undefined], [null], [false], [±0],
    [NaN] and the empty string. *)
Definition ToBoolean (v : value) : bool :=
  match v with
  | VUndefined | VNull => false
  | VBool b => b
  | VNumber (S754_zero _) | VNumber S754_nan => false
  | VNumber _ => true
  | VString s => negb (String.eqb s "")
  | VArray _ | VObject _ | VFunction _ => true
  end.

(** [v ?? d] *)
Definition nullish (v d : value) : value :=
  match v with VUndefined | VNull => d | _ => v end.

(** The own properties with a name: those of an object. The own properties
    of an array are its indices and [length]; a primitive has none. *)
Definition named_properties (v : value) : object :=
  match v with VObject props => props | _ => ∅ end.

Section Conversions.
Context {rt : Runtime}.

(** [ToString]; an array is joined with commas, [null] and [undefined]
    elements giving the empty string. *)
Fixpoint ToString (v : value) : string :=
  match v with
  | VUndefined => "undefined"
  | VNull => "null"
  | VBool true => "true"
  | VBool false => "false"
  | VNumber n => Number_toString n
  | VString s => s
  | VArray xs =>
      let element x :=
        match x with VUndefined | VNull => "" | _ => ToString x end in
      (fix join (l : list value) : string :=
         match l with
         | [] => ""
         | [x] => element x
         | x :: rest => element x +:+ "," +:+ join rest
         end) xs
  | VObject _ => "[object Object]"
  | VFunction member => Function_toString member
  end.

(** [ToPrimitive]: arrays and objects convert through [toString]. *)
Definition ToPrimitive (v : value) : value :=
  match v with
  | VArray _ | VObject _ | VFunction _ => VString (ToString v)
  | _ => v
  end.

(** [ToNumber] *)
Definition ToNumber (v : value) : number :=
  match ToPrimitive v with
  | VUndefined => NaN
  | VNull => S754_zero false
  | VBool true => of_Z 1
  | VBool false => S754_zero false
  | VNumber n => n
  | VString s => StringToNumber s
  | VArray _ | VObject _ | VFunction _ => NaN
  end.

(** [IsLessThan(x, y)]: [None] is the result [undefined] of the
    comparison (an operand is [NaN]). *)
Definition IsLessThan (x y : value) : option bool :=
  match ToPrimitive x, ToPrimitive y with
  | VString sx, VString sy => Some (String.ltb sx sy)
  | px, py =>
      match SFcompare (ToNumber px) (ToNumber py) with
      | Some Lt => Some true
      | Some _ => Some false
      | None => None
      end
  end.

(** [x < y], [x > y], [x <= y], [x >= y] *)
Definition lt (x y : value) : bool :=
  match IsLessThan x y with Some true => true | _ => false end.
Definition gt (x y : value) : bool :=
  match IsLessThan y x with Some true => true | _ => false end.
Definition le (x y : value) : bool :=
  match IsLessThan y x with Some false => true | _ => false end.
Definition ge (x y : value) : bool :=
  match IsLessThan x y with Some false => true | _ => false end.
End Conversions.

(** [x === y]. Arrays and objects are equal when they are the same object:
    a document decoded by [JSON.parse] shares no object with the query of
    the caller, so two of them are never equal. A built-in function is the
    same object wherever it is read. *)
Definition strict_equal (x y : value) : bool :=
  match x, y with
  | VUndefined, VUndefined | VNull, VNull => true
  | VBool a, VBool b => Bool.eqb a b
  | VNumber a, VNumber b => SFeqb a b
  | VString a, VString b => String.eqb a b
  | VFunction a, VFunction b => String.eqb a b
  | _, _ => false
  end.

(** [SameValueZero], the equality of [Array.prototype.includes]: as [===]
    but [NaN] equals [NaN]. *)
Definition SameValueZero (x y : value) : bool :=
  match x, y with
  | VNumber S754_nan, VNumber S754_nan => true
  | _, _ => strict_equal x y
  end.

(** [xs.includes(v)] *)
Definition Array_includes (xs : list value) (v : value) : bool :=
  existsb (SameValueZero v) xs.

(** [s.includes(t)] on strings *)
Definition String_includes (s t : string) : bool :=
  match String.index 0 t s with Some _ => true | None => false end.

(** [ToIntegerOrInfinity] *)
Inductive integer_or_infinity : Type :=
| NegInfinity
| Finite (z : Z)
| PosInfinity.

Definition ToIntegerOrInfinity (n : number) : integer_or_infinity :=
  match n with
  | S754_nan | S754_zero _ => Finite 0
  | S754_infinity false => PosInfinity
  | S754_infinity true => NegInfinity
  | S754_finite s m e =>
      let magnitude := Z.shiftl (Z.pos m) e in
      Finite (if s then - magnitude else magnitude)
  end.

(** The clamping of a relative index in [Array.prototype.slice]. *)
Definition relative_index (len : Z) (i : integer_or_infinity) : Z :=
  match i with
  | NegInfinity => 0
  | Finite z => if (z <? 0)%Z then Z.max (len + z) 0 else Z.min z len
  | PosInfinity => len
  end.

(** [xs.slice(start, end)]; [end_ = None] is the omitted argument. *)
Definition Array_slice {A} (xs : list A) (start : number)
    (end_ : option number) : list A :=
  let len := Z.of_nat (length xs) in
  let k := relative_index len (ToIntegerOrInfinity start) in
  let final :=
    match end_ with
    | None => len
    | Some e => relative_index len (ToIntegerOrInfinity e)
    end in
  take (Z.to_nat (final - k)) (drop (Z.to_nat k) xs).

End JS.

(** ** The keyspace and the monad of the asynchronous methods *)

(** The state that the methods share: the Redis keyspace, whether
    [connectRedis] has installed the module-level client of redis-client.ts,
    and the number of identifiers that [uuidv4] has handed out. *)
Record world : Type := World {
  redis : gmap string string;
  client : bool;
  uuid_calls : nat;
}.

Inductive error : Type :=
| SyntaxError             (* JSON.parse *)
| TypeError               (* a call of something that is not a function *)
| ClientNotInitialized.   (* getRedisClient before connectRedis *)

Inductive outcome (A : Type) : Type :=
| Ok (a : A)
| Throw (e : error).
Arguments Ok {A} a.
Arguments Throw {A} e.

Definition M (A : Type) : Type := world → outcome A * world.

Definition ret {A} (a : A) : M A := λ w, (Ok a, w).
Definition throw {A} (e : error) : M A := λ w, (Throw e, w).
Definition bind {A B} (m : M A) (k : A → M B) : M B :=
  λ w, match m w with
       | (Ok a, w') => k a w'
       | (Throw e, w') => (Throw e, w')
       end.

Notation "'do' x <- m ; k" := (bind m (λ x, k))
  (at level 10, x name, m at level 100, k at level 200).

(** A synchronous call that may throw, inside an asynchronous method. *)
Definition lift {A} (r : outcome A) : M A := λ w, (r, w).

Module Redis.

Definition set_redis (f : gmap string string → gmap string string)
    (w : world) : world :=
  {| redis := f (redis w); client := client w; uuid_calls := uuid_calls w |}.

(** GET key: the stored text, or [null]. *)
Definition get (key : string) : M (option string) :=
  λ w, (Ok (redis w !! key), w).

(** SET key value *)
Definition set (key val : string) : M unit :=
  λ w, (Ok tt, set_redis (insert key val) w).

(** DEL key: the number of keys removed. *)
Definition del (key : string) : M nat :=
  λ w, (Ok (if redis w !! key is Some _ then 1 else 0),
        set_redis (delete key) w).

(** KEYS prefix*: the keys that start with [prefix], in the enumeration
    order of the keyspace, which is arbitrary but the same for two scans of
    the same keyspace. The collection names are taken free of glob
    metacharacters, so that the pattern [`${name}:*`] selects the keys with
    the prefix [`${name}:`]. *)
Definition keys (prefix : string) : M (list string) :=
  λ w, (Ok (List.filter (String.prefix prefix) (map_to_list (redis w)).*1),
        w).

(** [!raw] for the reply of GET: [null] and the empty text are falsy. *)
Definition falsy (raw : option string) : bool :=
  match raw with
  | None => true
  | Some s => String.eqb s ""
  end.

(** [getRedisClient()] of redis-client.ts *)
Definition getRedisClient : M unit :=
  λ w, if client w then (Ok tt, w) else (Throw ClientNotInitialized, w).

(** [connectRedis(redisUrl)]: it installs the module-level client
    ([client = new Redis(redisUrl)]). *)
Definition connectRedis : M unit :=
  λ w, (Ok tt,
        {| redis := redis w; client := true; uuid_calls := uuid_calls w |}).

End Redis.

(** [uuidv4()] *)
Definition uuidv4 {rt : Runtime} : M string :=
  λ w, (Ok (uuid_of_call (uuid_calls w)),
        {| redis := redis w; client := client w;
           uuid_calls := S (uuid_calls w) |}).

(** [JSON.parse(raw)], which throws on a malformed text. *)
Definition parse {rt : Runtime} (raw : string) : M object :=
  match JSON_parse raw with
  | Some doc => ret doc
  | None => throw SyntaxError
  end.

(** ** QueryBuilder: the deferred sort / skip / limit *)

Module QueryBuilder.

(** A sort specification [Record<string, 1 | -1>], by its entries in the
    order of [Object.keys]. *)
Definition sort_spec : Type := list (string * number).

Record t : Type := Build {
  dataFetcher : M (list object);
  _sort : option sort_spec;
  _limit : option number;
  _skip : number;
}.

(** [new QueryBuilder(dataFetcher)] *)
Definition new (fetcher : M (list object)) : t :=
  {| dataFetcher := fetcher; _sort := None; _limit := None;
     _skip := S754_zero false |}.

(** A setter assigns one field of the builder and returns the builder
    itself ([return this]): the builder after the call. *)
Definition sort (fields : sort_spec) (this : t) : t :=
  {| dataFetcher := dataFetcher this; _sort := Some fields;
     _limit := _limit this; _skip := _skip this |}.

Definition limit (n : number) (this : t) : t :=
  {| dataFetcher := dataFetcher this; _sort := _sort this;
     _limit := Some n; _skip := _skip this |}.

Definition skip (n : number) (this : t) : t :=
  {| dataFetcher := dataFetcher this; _sort := _sort this;
     _limit := _limit this; _skip := n |}.

Section Exec.
Context {rt : Runtime}.

(** The comparison function handed to [results.sort]. *)
Fixpoint comparator (fields : sort_spec) (a b : object) : number :=
  match fields with
  | [] => S754_zero false
  | (key, dir) :: rest =>
      if JS.lt (get a key) (get b key) then mul (of_Z (-1)) dir
      else if JS.gt (get a key) (get b key) then mul (of_Z 1) dir
      else comparator rest a b
  end.

Definition sort_step (this : t) (results : list object) : list object :=
  match _sort this with
  | Some fields => Array_sort object (comparator fields) results
  | None => results
  end.

Definition skip_step (this : t) (results : list object) : list object :=
  if SFltb (S754_zero false) (_skip this)
  then JS.Array_slice results (_skip this) None
  else results.

Definition limit_step (this : t) (results : list object) : list object :=
  match _limit this with
  | Some n => JS.Array_slice results (S754_zero false) (Some n)
  | None => results
  end.

Definition exec (this : t) : M (list object) :=
  do results <- dataFetcher this;
  ret (limit_step this (skip_step this (sort_step this results))).
End Exec.

(** A chain [.sort(..).limit(..).skip(..)...] on a builder, as the list of
    its calls from left to right. *)
Inductive call : Type :=
| Sort (fields : sort_spec)
| Skip (n : number)
| Limit (n : number).

Definition apply_call (this : t) (c : call) : t :=
  match c with
  | Sort fields => sort fields this
  | Skip n => skip n this
  | Limit n => limit n this
  end.

Definition chain (this : t) (calls : list call) : t :=
  foldl apply_call this calls.

(** The arguments of the calls of each setter, in order. *)
Definition sorts (calls : list call) : list sort_spec :=
  omap (λ c, match c with Sort fields => Some fields | _ => None end) calls.
Definition skips (calls : list call) : list number :=
  omap (λ c, match c with Skip n => Some n | _ => None end) calls.
Definition limits (calls : list call) : list number :=
  omap (λ c, match c with Limit n => Some n | _ => None end) calls.

End QueryBuilder.

(** ** Model: the schema-bound collection *)

(** A query specification [QueryOperators<T>], by its entries in the order of
    [Object.entries]: a field and its condition. *)
Definition query : Type := list (string * value).

Module Model.

(** [name] is the collection, [schema] the fields of [schema.definition] in
    the order of [for ... in]. *)
Record t : Type := Build {
  name : string;
  schema : list string;
}.

Definition _key (this : t) (id : string) : string :=
  name this +:+ ":" +:+ id.

Section Methods.
Context {rt : Runtime}.

Definition create (this : t) (data : object) : M object :=
  do id <- uuidv4;
  let doc :=
    foldl (λ doc field, <[field := JS.nullish (get data field) VNull]> doc)
          {[ "_id" := VString id ]} (schema this) in
  do _ <- Redis.set (_key this id) (JSON_stringify doc);
  ret doc.

(** One turn of the [switch (op)] inside [for (let op in condition)]:
    [false] is [return false], [true] is [break]. *)
Definition switch_op (val : value) (op : string) (operand : value) : bool :=
  if String.eqb op "$gt" then JS.gt val operand
  else if String.eqb op "$gte" then JS.ge val operand
  else if String.eqb op "$lt" then JS.lt val operand
  else if String.eqb op "$lte" then JS.le val operand
  else if String.eqb op "$in" then
    match operand with
    | VArray xs => JS.Array_includes xs val
    | _ => false                  (* !Array.isArray(operand) *)
    end
  else if String.eqb op "$nin" then
    match operand with
    | VArray xs => negb (JS.Array_includes xs val)
    | _ => true
    end
  else if String.eqb op "$ne" then negb (JS.strict_equal val operand)
  else false.

(** The callback of [Object.entries(query).every]. The turns of the loop
    over the operators have no effect, so that the order in which
    [for ... in] visits them does not show. *)
Definition matches_field (doc : object) (entry : string * value) : bool :=
  let '(field, condition) := entry in
  let val := get doc field in
  if JS.ToBoolean condition
     && String.eqb (JS.typeof condition) "object"
     && negb (JS.Array_isArray condition)
  then
    forallb (λ '(op, operand), switch_op val op operand)
            (map_to_list (JS.named_properties condition))
  else JS.strict_equal val condition.

Definition _matchesQuery (doc : object) (query : query) : bool :=
  forallb (matches_field doc) query.

(** The loop of the fetcher over the keys. *)
Fixpoint fetch_loop (query : query) (keys : list string)
    (results : list object) : M (list object) :=
  match keys with
  | [] => ret results
  | key :: rest =>
      do raw <- Redis.get key;
      if Redis.falsy raw then fetch_loop query rest results
      else
        do doc <- parse (default "" raw);
        if _matchesQuery doc query
        then fetch_loop query rest (results ++ [doc])
        else fetch_loop query rest results
  end.

Definition fetcher (this : t) (query : query) : M (list object) :=
  do keys <- Redis.keys (name this +:+ ":");
  fetch_loop query keys [].

Definition find (this : t) (query : query) : QueryBuilder.t :=
  QueryBuilder.new (fetcher this query).

Definition findOne (this : t) (query : query) : M (option object) :=
  do results <-
    QueryBuilder.exec (QueryBuilder.limit (of_Z 1) (find this query));
  ret (if (0 <? length results)%nat then results !! 0%nat else None).

Definition findById (this : t) (id : string) : M (option object) :=
  do raw <- Redis.get (_key this id);
  if Redis.falsy raw then ret None
  else do doc <- parse (default "" raw); ret (Some doc).

Definition update (this : t) (id : string) (data : object)
    : M (option object) :=
  let key := _key this id in
  do raw <- Redis.get key;
  if Redis.falsy raw then ret None
  else
    do doc <- parse (default "" raw);
    let doc := Object_assign doc data in
    do _ <- Redis.set key (JSON_stringify doc);
    ret (Some doc).

(** [`${this.name}:${doc._id}`], the key that [updateMany] and [deleteMany]
    compute from a document. *)
Definition key_of (this : t) (doc : object) : string :=
  _key this (JS.ToString (get doc "_id")).

(** The loop [for (let doc of docs)] of [updateMany]; the key is computed
    before the assignment of [data]. *)
Fixpoint updateMany_loop (this : t) (data : object) (docs : list object)
    (count : nat) : M nat :=
  match docs with
  | [] => ret count
  | doc :: rest =>
      let key := key_of this doc in
      let doc := Object_assign doc data in
      do _ <- Redis.set key (JSON_stringify doc);
      updateMany_loop this data rest (S count)
  end.

Definition updateMany (this : t) (query : query) (data : object) : M nat :=
  do docs <- QueryBuilder.exec (find this query);
  updateMany_loop this data docs 0.

Definition delete (this : t) (id : string) : M nat :=
  Redis.del (_key this id).

Fixpoint deleteMany_loop (this : t) (docs : list object) (count : nat)
    : M nat :=
  match docs with
  | [] => ret count
  | doc :: rest =>
      do _ <- Redis.del (key_of this doc);
      deleteMany_loop this rest (S count)
  end.

Definition deleteMany (this : t) (query : query) : M nat :=
  do docs <- QueryBuilder.exec (find this query);
  deleteMany_loop this docs 0.

Definition countDocuments (this : t) (query : query) : M nat :=
  do docs <- QueryBuilder.exec (find this query);
  ret (length docs).

End Methods.

End Model.

(** ** RedisModel: the schema-less collection *)

(** Synchronous code that may throw. *)
Definition and_then {A B} (r : outcome A) (k : A → outcome B) : outcome B :=
  match r with
  | Ok a => k a
  | Throw e => Throw e
  end.

Notation "'try' x <- r ; k" := (and_then r (λ x, k))
  (at level 10, x name, r at level 100, k at level 200).

(** [options: { returnNew?: boolean }] *)
Record options : Type := Options { returnNew : option bool }.

(** The default [options = {}]. *)
Definition no_options : options := {| returnNew := None |}.

Module RedisModel.

Record t : Type := Build { modelName : string }.

Section Methods.
Context {rt : Runtime}.

(** [`${this.modelName}:${id}`] *)
Definition getKey (this : t) (id : value) : string :=
  modelName this +:+ ":" +:+ JS.ToString id.

Definition create (this : t) (doc : object) : M object :=
  do _ <- Redis.getRedisClient;
  do id <-
    match get doc "id" with
    | VUndefined | VNull => do fresh <- uuidv4; ret (VString fresh)
    | id => ret id
    end;
  let newDoc := <["id" := id]> doc in
  do _ <- Redis.set (getKey this id) (JSON_stringify newDoc);
  ret newDoc.

(** [x !== undefined] *)
Definition defined (x : value) : bool :=
  negb (JS.strict_equal x VUndefined).

(** [recv.includes(val)]: the method of arrays and of strings; any other
    receiver has no such method. *)
Definition includes (recv val : value) : outcome bool :=
  match recv with
  | VArray xs => Ok (JS.Array_includes xs val)
  | VString s => Ok (JS.String_includes s (JS.ToString val))
  | _ => Throw TypeError
  end.

(** The seven tests on an operator object: [Ok false] is [return false],
    [Ok true] falls through to the next field. *)
Definition check_operators (val : value) (op : object) : outcome bool :=
  if defined (get op "$gt") && negb (JS.gt val (get op "$gt"))
  then Ok false
  else if defined (get op "$gte") && negb (JS.ge val (get op "$gte"))
  then Ok false
  else if defined (get op "$lt") && negb (JS.lt val (get op "$lt"))
  then Ok false
  else if defined (get op "$lte") && negb (JS.le val (get op "$lte"))
  then Ok false
  else
    try missing <-
      (if defined (get op "$in")
       then try found <- includes (get op "$in") val; Ok (negb found)
       else Ok false);
    if missing then Ok false
    else
      try excluded <-
        (if defined (get op "$nin") then includes (get op "$nin") val
         else Ok false);
      if excluded then Ok false
      else if defined (get op "$ne") && JS.strict_equal val (get op "$ne")
      then Ok false
      else Ok true.

Fixpoint _matches (doc : object) (query : query) : outcome bool :=
  match query with
  | [] => Ok true
  | (field, cond) :: rest =>
      let val := get doc field in
      if negb (JS.strict_equal cond VNull)
         && String.eqb (JS.typeof cond) "object"
         && negb (JS.Array_isArray cond)
      then
        try pass <- check_operators val (JS.named_properties cond);
        if pass then _matches doc rest else Ok false
      else
        if negb (JS.strict_equal val cond) then Ok false
        else _matches doc rest
  end.

Fixpoint find_loop (query : query) (keys : list string)
    (results : list object) : M (list object) :=
  match keys with
  | [] => ret results
  | key :: rest =>
      do data <- Redis.get key;
      if Redis.falsy data then find_loop query rest results
      else
        do doc <- parse (default "" data);
        do hit <- lift (_matches doc query);
        if hit then find_loop query rest (results ++ [doc])
        else find_loop query rest results
  end.

Definition find (this : t) (query : query) : M (list object) :=
  do _ <- Redis.getRedisClient;
  do keys <- Redis.keys (modelName this +:+ ":");
  find_loop query keys [].

Fixpoint findOne_loop (query : query) (keys : list string)
    : M (option object) :=
  match keys with
  | [] => ret None
  | key :: rest =>
      do data <- Redis.get key;
      if Redis.falsy data then findOne_loop query rest
      else
        do doc <- parse (default "" data);
        do hit <- lift (_matches doc query);
        if hit then ret (Some doc) else findOne_loop query rest
  end.

Definition findOne (this : t) (query : query) : M (option object) :=
  do _ <- Redis.getRedisClient;
  do keys <- Redis.keys (modelName this +:+ ":");
  findOne_loop query keys.

Definition findOneAndUpdate (this : t) (query : query) (update : object)
    (options : options) : M (option object) :=
  do found <- findOne this query;
  match found with
  | None => ret None
  | Some doc =>
      if negb (JS.ToBoolean (get doc "id")) then ret None
      else
        do _ <- Redis.getRedisClient;
        let updated := Object_assign doc update in
        do _ <- Redis.set (getKey this (get doc "id"))
                          (JSON_stringify updated);
        ret (Some (if returnNew options is Some true then updated
                   else doc))
  end.

Definition findById (this : t) (id : string) : M (option object) :=
  do _ <- Redis.getRedisClient;
  do data <- Redis.get (getKey this (VString id));
  if Redis.falsy data then ret None
  else do doc <- parse (default "" data); ret (Some doc).

Fixpoint updateMany_loop (this : t) (update : object) (docs : list object)
    (count : nat) : M nat :=
  match docs with
  | [] => ret count
  | doc :: rest =>
      if negb (JS.ToBoolean (get doc "id"))
      then updateMany_loop this update rest count
      else
        let updated := Object_assign doc update in
        do _ <- Redis.set (getKey this (get doc "id"))
                          (JSON_stringify updated);
        updateMany_loop this update rest (S count)
  end.

Definition updateMany (this : t) (query : query) (update : object)
    : M nat :=
  do docs <- find this query;
  do _ <- Redis.getRedisClient;
  updateMany_loop this update docs 0.

Definition updateOne (this : t) (query : query) (update : object)
    : M (option object) :=
  do found <- findOne this query;
  match found with
  | None => ret None
  | Some doc =>
      if negb (JS.ToBoolean (get doc "id")) then ret None
      else
        do _ <- Redis.getRedisClient;
        let updated := Object_assign doc update in
        do _ <- Redis.set (getKey this (get doc "id"))
                          (JSON_stringify updated);
        ret (Some updated)
  end.

Fixpoint deleteMany_loop (this : t) (docs : list object) (count : nat)
    : M nat :=
  match docs with
  | [] => ret count
  | doc :: rest =>
      if negb (JS.ToBoolean (get doc "id"))
      then deleteMany_loop this rest count
      else
        do _ <- Redis.del (getKey this (get doc "id"));
        deleteMany_loop this rest (S count)
  end.

Definition deleteMany (this : t) (query : query) : M nat :=
  do docs <- find this query;
  do _ <- Redis.getRedisClient;
  deleteMany_loop this docs 0.

Definition deleteOne (this : t) (query : query) : M nat :=
  do found <- findOne this query;
  match found with
  | None => ret 0
  | Some doc =>
      if negb (JS.ToBoolean (get doc "id")) then ret 0
      else
        do _ <- Redis.getRedisClient;
        do _ <- Redis.del (getKey this (get doc "id"));
        ret 1
  end.

Definition findOneAndDelete (this : t) (query : query)
    : M (option object) :=
  do found <- findOne this query;
  match found with
  | None => ret None
  | Some doc =>
      if negb (JS.ToBoolean (get doc "id")) then ret None
      else
        do _ <- Redis.getRedisClient;
        do _ <- Redis.del (getKey this (get doc "id"));
        ret (Some doc)
  end.

Definition countDocuments (this : t) (query : query) : M nat :=
  do docs <- find this query;
  ret (length docs).

End Methods.

End RedisModel.

(** ** RedisModelBasic: src/redis-orm.ts *)

Module RedisModelBasic.

Record t : Type := Build { modelName : string }.

Section Methods.
Context {rt : Runtime}.

Definition getKey (this : t) (id : value) : string :=
  modelName this +:+ ":" +:+ JS.ToString id.

Definition create (this : t) (doc : object) : M object :=
  do _ <- Redis.getRedisClient;
  do id <-
    (if JS.ToBoolean (get doc "id") then ret (get doc "id")
     else do fresh <- uuidv4; ret (VString fresh));
  let newDoc := <["id" := id]> doc in
  do _ <- Redis.set (getKey this id) (JSON_stringify newDoc);
  ret newDoc.

(** The loop over [Object.entries(query)]; it assigns [match] and never
    leaves early. An array passes the test on [typeof] as well; it has none
    of the properties [$gt], [$lt], [$in]. *)
Fixpoint match_loop (doc : object) (query : query) (match_ : bool)
    : outcome bool :=
  match query with
  | [] => Ok match_
  | (field, condition) :: rest =>
      let val := get doc field in
      if String.eqb (JS.typeof condition) "object"
         && negb (JS.strict_equal condition VNull)
      then
        let cond := JS.named_properties condition in
        let match_ :=
          if RedisModel.defined (get cond "$gt")
             && negb (JS.gt val (get cond "$gt"))
          then false else match_ in
        let match_ :=
          if RedisModel.defined (get cond "$lt")
             && negb (JS.lt val (get cond "$lt"))
          then false else match_ in
        try missing <-
          (if RedisModel.defined (get cond "$in")
           then try found <- RedisModel.includes (get cond "$in") val;
                Ok (negb found)
           else Ok false);
        match_loop doc rest (if missing then false else match_)
      else
        match_loop doc rest
          (if negb (JS.strict_equal val condition) then false
           else match_)
  end.

Fixpoint find_loop (query : query) (keys : list string)
    (results : list object) : M (list object) :=
  match keys with
  | [] => ret results
  | key :: rest =>
      do data <- Redis.get key;
      if Redis.falsy data then find_loop query rest results
      else
        do doc <- parse (default "" data);
        do hit <- lift (match_loop doc query true);
        if hit then find_loop query rest (results ++ [doc])
        else find_loop query rest results
  end.

Definition find (this : t) (query : query) : M (list object) :=
  do _ <- Redis.getRedisClient;
  do keys <- Redis.keys (modelName this +:+ ":");
  find_loop query keys [].

Definition findById (this : t) (id : string) : M (option object) :=
  do _ <- Redis.getRedisClient;
  do data <- Redis.get (getKey this (VString id));
  if Redis.falsy data then ret None
  else do doc <- parse (default "" data); ret (Some doc).

Fixpoint deleteMany_loop (this : t) (docs : list object) (deleted : nat)
    : M nat :=
  match docs with
  | [] => ret deleted
  | doc :: rest =>
      if negb (JS.ToBoolean (get doc "id"))
      then deleteMany_loop this rest deleted
      else
        do _ <- Redis.del (getKey this (get doc "id"));
        deleteMany_loop this rest (S deleted)
  end.

Definition deleteMany (this : t) (query : query) : M nat :=
  do docs <- find this query;
  do _ <- Redis.getRedisClient;
  deleteMany_loop this docs 0.

Fixpoint updateMany_loop (this : t) (update : object) (docs : list object)
    (updated : nat) : M nat :=
  match docs with
  | [] => ret updated
  | doc :: rest =>
      if negb (JS.ToBoolean (get doc "id"))
      then updateMany_loop this update rest updated
      else
        let updatedDoc := Object_assign doc update in
        do _ <- Redis.set (getKey this (get doc "id"))
                          (JSON_stringify updatedDoc);
        updateMany_loop this update rest (S updated)
  end.

Definition updateMany (this : t) (query : query) (update : object)
    : M nat :=
  do docs <- find this query;
  do _ <- Redis.getRedisClient;
  updateMany_loop this update docs 0.

Definition countDocuments (this : t) (query : query) : M nat :=
  do docs <- find this query;
  ret (length docs).

End Methods.

End RedisModelBasic.

(** ** A runtime and a collection to run the definitions on *)

Module Fixture.

(** [Number::toString] on the integers. *)
Definition number_to_string (n : number) : string :=
  match n with
  | S754_nan => "NaN"
  | S754_infinity false => "Infinity"
  | S754_infinity true => "-Infinity"
  | _ =>
      match JS.ToIntegerOrInfinity n with
      | JS.Finite z => pretty z
      | _ => ""
      end
  end.

(** [StringToNumber] on the decimal numerals. *)
Fixpoint digits (s : string) (acc : Z) : option Z :=
  match s with
  | EmptyString => Some acc
  | String c rest =>
      let d := (Z.of_nat (nat_of_ascii c) - 48)%Z in
      if ((0 <=? d) && (d <=? 9))%Z then digits rest (10 * acc + d)%Z
      else None
  end.

Definition string_to_number (s : string) : number :=
  match digits s 0 with
  | Some z => of_Z z
  | None => NaN
  end.

Definition quote : string := String (ascii_of_nat 34) EmptyString.

(** The JSON text of a value (strings without escapes); a property whose
    value is [undefined] or a function is left out. *)
Fixpoint stringify_value (v : value) : string :=
  match v with
  | VUndefined | VNull | VFunction _ => "null"
  | VBool true => "true"
  | VBool false => "false"
  | VNumber (S754_nan) | VNumber (S754_infinity _) => "null"
  | VNumber n => number_to_string n
  | VString s => quote +:+ s +:+ quote
  | VArray xs =>
      "[" +:+
      (fix elements (l : list value) : string :=
         match l with
         | [] => ""
         | [x] => stringify_value x
         | x :: rest => stringify_value x +:+ "," +:+ elements rest
         end) xs
      +:+ "]"
  | VObject props =>
      "{" +:+
      map_fold (λ k x acc,
                  match x with
                  | VUndefined | VFunction _ => acc
                  | _ =>
                      (if String.eqb acc "" then "" else acc +:+ ",")
                      +:+ quote +:+ k +:+ quote +:+ ":" +:+ stringify_value x
                  end) "" props
      +:+ "}"
  end.

Definition stringify (doc : object) : string :=
  stringify_value (VObject doc).

(** A stable insertion sort on the sign of the comparison function. *)
Fixpoint insert_by {A} (cmp : A → A → number) (x : A) (l : list A)
    : list A :=
  match l with
  | [] => [x]
  | y :: rest =>
      if SFltb (cmp y x) (S754_zero false) then y :: insert_by cmp x rest
      else x :: y :: rest
  end.

Definition sort_by (A : Type) (cmp : A → A → number) (l : list A) : list A :=
  foldr (insert_by cmp) [] l.

(** The runtime whose [JSON.parse] decodes the texts of the documents
    [known] and rejects every other text. *)
Definition runtime (known : list object) : Runtime := {|
  JSON_parse raw := List.find (λ doc, String.eqb (stringify doc) raw) known;
  JSON_stringify := stringify;
  StringToNumber := string_to_number;
  Number_toString := number_to_string;
  Function_toString member :=
    "function "
    +:+ (if String.eqb member "constructor" then "Object" else member)
    +:+ "() { [native code] }";
  uuid_of_call n := "uuid-" +:+ pretty n;
  Array_sort := sort_by;
|}.

(** The users of the scenarios, [idField] being [_id] or [id]. *)
Definition user (idField id name : string) (age : Z) : object :=
  {[ idField := VString id; "name" := VString name;
     "age" := VNumber (of_Z age) ]}.

Definition bob (idField : string) : object := user idField "2" "Bob" 30.
Definition bob35 (idField : string) : object := user idField "2" "Bob" 35.

(** The documents that the runtime of the scenarios decodes. *)
Definition users (idField : string) : list object :=
  [ user idField "1" "Alice" 25; bob idField;
    user idField "3" "Charlie" 40; bob35 idField ].

(** The keyspace that holds Alice, Bob and Charlie under [User:], and a
    key of another collection. *)
Definition keyspace (idField : string) : gmap string string :=
  {[ "User:1" := stringify (user idField "1" "Alice" 25);
     "User:2" := stringify (user idField "2" "Bob" 30);
     "User:3" := stringify (user idField "3" "Charlie" 40);
     "Post:1" := "{}" ]}.

Definition world_of (idField : string) : world :=
  {| redis := keyspace idField; client := true; uuid_calls := 0 |}.

(** The collection as a [Model] and as a [RedisModel]. *)
Definition Users : Model.t := Model.Build "User" ["name"; "age"].
Definition UserModel : RedisModel.t := RedisModel.Build "User".

End Fixture.

(** ** The vocabulary of the specification *)

(** The operator keys of §4.2. *)
Definition known_operators : list string :=
  ["$gt"; "$gte"; "$lt"; "$lte"; "$in"; "$nin"; "$ne"].

Definition ordering_operators : list string :=
  ["$gt"; "$gte"; "$lt"; "$lte"].

(** [condition] is an operator object with the operators [ops]. *)
Definition uses_only (allowed : list string) (ops : object) : Prop :=
  ops ≠ ∅ ∧ ∀ op, is_Some (ops !! op) → op ∈ allowed.

(** [operand] has the type [T[] | undefined] of [$in?: T[]]. *)
Definition array_or_absent (operand : value) : Prop :=
  operand = VUndefined ∨ ∃ xs, operand = VArray xs.

(** The query has the type [Query<T>]: in its operator objects the operands
    of [$in] and [$nin], when given, are arrays. *)
Definition well_typed (query : query) : Prop :=
  ∀ field ops, (field, VObject ops) ∈ query →
    array_or_absent (get ops "$in") ∧ array_or_absent (get ops "$nin").

(** The result of a method, with the head of the array it returns. *)
Definition outcome_map {A B} (f : A → B) (r : outcome A) : outcome B :=
  match r with
  | Ok a => Ok (f a)
  | Throw e => Throw e
  end.

Section Collections.
Context {rt : Runtime}.

(** [doc] is a document of the collection with the key prefix [prefix]:
    the decoding of a non-empty text stored under a key with that prefix. *)
Definition stored (prefix : string) (w : world) (doc : object) : Prop :=
  ∃ key raw,
    String.prefix prefix key = true ∧ redis w !! key = Some raw ∧
    raw ≠ "" ∧ JSON_parse raw = Some doc.

(** Every non-empty text under the prefix is the encoding of a document. *)
Definition decodable (prefix : string) (w : world) : Prop :=
  map_Forall (λ key raw,
    String.prefix prefix key = true → raw ≠ "" → is_Some (JSON_parse raw))
    (redis w).

(** Every non-empty text under the prefix is the encoding of a document
    that carries a non-empty string [id] and is stored under the key of
    that [id]. *)
Definition well_keyed (this : RedisModel.t) (w : world) : Prop :=
  map_Forall (λ key raw,
    String.prefix (RedisModel.modelName this +:+ ":") key = true →
    raw ≠ "" →
    ∃ doc id,
      JSON_parse raw = Some doc ∧ doc !! "id" = Some (VString id) ∧
      id ≠ "" ∧ key = RedisModel.getKey this (VString id))
    (redis w).
End Collections.

Section BulkVocabulary.
Context {rt : Runtime}.

(** Every non-empty text under the prefix of the [Model] is the encoding of
    a document that is stored under the key of its own [_id]. *)
Definition Model_well_keyed (this : Model.t) (w : world) : Prop :=
  map_Forall (λ key raw,
    String.prefix (Model.name this +:+ ":") key = true → raw ≠ "" →
    ∃ doc, JSON_parse raw = Some doc ∧ Model.key_of this doc = key)
    (redis w).

(** The document that [key] holds for the scan of [find(query)]: the
    decoding of its non-empty text, when the key is one of the collection
    and [_matchesQuery] accepts the document. *)
Definition Model_selected (this : Model.t) (query : query) (w : world)
    (key : string) : option object :=
  if String.prefix (Model.name this +:+ ":") key then
    match redis w !! key with
    | Some raw =>
        if String.eqb raw "" then None
        else
          match JSON_parse raw with
          | Some doc => if Model._matchesQuery doc query then Some doc
                        else None
          | None => None
          end
    | None => None
    end
  else None.

End BulkVocabulary.

Section SchemalessBulkVocabulary.
Context {rt : Runtime}.

(** The document that [key] holds for the scan of [RedisModel.find(query)]:
    the decoding of its non-empty text, when the key is one of the
    collection and [_matches] returns true for the document. *)
Definition RedisModel_selected (this : RedisModel.t) (query : query)
    (w : world) (key : string) : option object :=
  if String.prefix (RedisModel.modelName this +:+ ":") key then
    match redis w !! key with
    | Some raw =>
        if String.eqb raw "" then None
        else
          match JSON_parse raw with
          | Some doc =>
              match RedisModel._matches doc query with
              | Ok true => Some doc
              | _ => None
              end
          | None => None
          end
    | None => None
    end
  else None.

End SchemalessBulkVocabulary.

Section EvaluatorVocabulary.
Context {rt : Runtime}.

(** The test that [Model._matchesQuery] makes for the operator [op] of an
    operator object: none when the object has no such key. *)
Definition operator_test (val : value) (ops : object) (op : string) : bool :=
  match ops !! op with
  | Some operand => Model.switch_op val op operand
  | None => true
  end.

(** The query is one that the caller can write as JSON within the declared
    type: in its operator objects every key is one of the seven operators,
    no operand is [undefined], and the operands of [$in] and [$nin] are
    arrays. *)
Definition well_formed (query : query) : Prop :=
  ∀ field ops, (field, VObject ops) ∈ query →
    (∀ op operand, ops !! op = Some operand →
       op ∈ known_operators ∧ operand ≠ VUndefined) ∧
    (∀ operand, ops !! "$in" = Some operand → ∃ xs, operand = VArray xs) ∧
    (∀ operand, ops !! "$nin" = Some operand → ∃ xs, operand = VArray xs).

(** The query is within the type [Query<T>] of src/redis-orm.ts: no
    condition is an array, and an operator object has at most [$gt], [$lt]
    and an array for [$in] among the seven operators. *)
Definition basic_query (query : query) : Prop :=
  ∀ field cond, (field, cond) ∈ query →
    (∀ xs, cond ≠ VArray xs) ∧
    ∀ ops, cond = VObject ops →
      get ops "$gte" = VUndefined ∧ get ops "$lte" = VUndefined ∧
      get ops "$nin" = VUndefined ∧ get ops "$ne" = VUndefined ∧
      array_or_absent (get ops "$in").

End EvaluatorVocabulary.

(** * Properties *)

(** ** The result pipeline *)

Section QueryBuilderFacts.
Context {rt : Runtime}.
Import QueryBuilder.

Lemma chain_snoc this calls c :
  chain this (calls ++ [c]) = apply_call (chain this calls) c.
Proof. unfold chain. by rewrite foldl_app. Qed.

Lemma chain_dataFetcher this calls :
  dataFetcher (chain this calls) = dataFetcher this.
Proof.
  induction calls as [|c calls IH] using rev_ind; [done|].
  rewrite chain_snoc. by destruct c.
Qed.

Lemma chain_sort this calls :
  _sort (chain this calls) =
  match last (sorts calls) with
  | Some fields => Some fields
  | None => _sort this
  end.
Proof.
  induction calls as [|c calls IH] using rev_ind; [done|].
  rewrite chain_snoc. unfold sorts in *. rewrite omap_app.
  destruct c; simpl; rewrite ?last_snoc, ?app_nil_r; done.
Qed.

Lemma chain_skip this calls :
  _skip (chain this calls) = default (_skip this) (last (skips calls)).
Proof.
  induction calls as [|c calls IH] using rev_ind; [done|].
  rewrite chain_snoc. unfold skips in *. rewrite omap_app.
  destruct c; simpl; rewrite ?last_snoc, ?app_nil_r; done.
Qed.

Lemma chain_limit this calls :
  _limit (chain this calls) =
  match last (limits calls) with Some n => Some n | None => _limit this end.
Proof.
  induction calls as [|c calls IH] using rev_ind; [done|].
  rewrite chain_snoc. unfold limits in *. rewrite omap_app.
  destruct c; simpl; rewrite ?last_snoc, ?app_nil_r; done.
Qed.

(** What [exec] computes from the three recorded intents. *)
Lemma exec_unfold this :
  exec this =
  (do results <- dataFetcher this;
   let sorted :=
     match _sort this with
     | Some fields => Array_sort object (comparator fields) results
     | None => results
     end in
   let skipped :=
     if SFltb (S754_zero false) (_skip this)
     then JS.Array_slice sorted (_skip this) None
     else sorted in
   ret (match _limit this with
        | Some n => JS.Array_slice skipped (S754_zero false) (Some n)
        | None => skipped
        end)).
Proof. reflexivity. Qed.

(** Claim C2. Whatever the order in which [.sort(S)], [.skip(k)] and
    [.limit(n)] are chained on the builder that [find] returns, [exec]
    applies to the fetched results the sort by [S], then the skip of [k],
    then the limit to [n]; its output is therefore the same for all six
    orders. *)
Theorem exec_sort_skip_limit_any_order
    (fetcher : M (list object)) (S : sort_spec) (k n : number)
    (calls : list call) :
  calls ≡ₚ [Sort S; Skip k; Limit n] →
  exec (chain (new fetcher) calls) =
  (do results <- fetcher;
   let sorted := Array_sort object (comparator S) results in
   let skipped :=
     if SFltb (S754_zero false) k then JS.Array_slice sorted k None
     else sorted in
   ret (JS.Array_slice skipped (S754_zero false) (Some n))).
Proof.
  intros Hperm. rewrite exec_unfold.
  rewrite chain_dataFetcher, chain_sort, chain_skip, chain_limit.
  assert (sorts calls = [S]) as ->.
  { apply Permutation_singleton_r. unfold sorts. by rewrite Hperm. }
  assert (skips calls = [k]) as ->.
  { apply Permutation_singleton_r. unfold skips. by rewrite Hperm. }
  assert (limits calls = [n]) as ->.
  { apply Permutation_singleton_r. unfold limits. by rewrite Hperm. }
  reflexivity.
Qed.

(** Claim C10. A setter called again overwrites what the earlier call
    recorded: before [exec], the last [skip], the last [limit] and the last
    [sort] win. *)
Theorem exec_last_setter_wins
    (b : t) (m n : number) (S1 S2 : sort_spec) :
  exec (skip n (skip m b)) = exec (skip n b) ∧
  exec (limit n (limit m b)) = exec (limit n b) ∧
  exec (sort S2 (sort S1 b)) = exec (sort S2 b).
Proof. repeat split. Qed.

End QueryBuilderFacts.

(** ** The predicate evaluators *)

Section EvaluatorFacts.
Context {rt : Runtime}.

(** A property that is neither an own one nor a member of
    [Object.prototype] reads as [undefined]. *)
Lemma get_absent (doc : object) field :
  doc !! field = None → Object_prototype field = None →
  get doc field = VUndefined.
Proof. unfold get. by intros -> ->. Qed.

Lemma get_insert_ne (o : object) k k' x :
  k ≠ k' → get (<[k := x]> o) k' = get o k'.
Proof. intros ?. unfold get. by rewrite lookup_insert_ne. Qed.

(** A comparison with [undefined] is a comparison with [NaN]. *)
Lemma IsLessThan_undefined_l y : JS.IsLessThan VUndefined y = None.
Proof. unfold JS.IsLessThan. by destruct (JS.ToPrimitive y). Qed.

Lemma SFcompare_nan_r n : SFcompare n NaN = None.
Proof. by destruct n. Qed.

Lemma IsLessThan_undefined_r x : JS.IsLessThan x VUndefined = None.
Proof.
  unfold JS.IsLessThan. change (JS.ToPrimitive VUndefined) with VUndefined.
  change (JS.ToNumber VUndefined) with NaN.
  destruct (JS.ToPrimitive x); by rewrite SFcompare_nan_r.
Qed.

Lemma ordering_undefined operand :
  JS.gt VUndefined operand = false ∧ JS.ge VUndefined operand = false ∧
  JS.lt VUndefined operand = false ∧ JS.le VUndefined operand = false.
Proof.
  unfold JS.gt, JS.ge, JS.lt, JS.le.
  by rewrite IsLessThan_undefined_l, IsLessThan_undefined_r.
Qed.

Lemma elem_of_ordering op :
  op ∈ ordering_operators →
  op = "$gt" ∨ op = "$gte" ∨ op = "$lt" ∨ op = "$lte".
Proof.
  unfold ordering_operators. rewrite !elem_of_cons, elem_of_nil. tauto.
Qed.

Lemma not_elem_of_known op :
  op ∉ known_operators →
  op ≠ "$gt" ∧ op ≠ "$gte" ∧ op ≠ "$lt" ∧ op ≠ "$lte" ∧
  op ≠ "$in" ∧ op ≠ "$nin" ∧ op ≠ "$ne".
Proof.
  unfold known_operators. rewrite !not_elem_of_cons. tauto.
Qed.

(** *** Model._matchesQuery *)

Lemma switch_op_unknown val op operand :
  op ∉ known_operators → Model.switch_op val op operand = false.
Proof.
  intros (?&?&?&?&?&?&?)%not_elem_of_known. unfold Model.switch_op.
  repeat match goal with
         | |- context [String.eqb op ?s] =>
             destruct (String.eqb_spec op s); [congruence|]
         end.
  done.
Qed.

Lemma switch_op_ordering_undefined op operand :
  op ∈ ordering_operators → Model.switch_op VUndefined op operand = false.
Proof.
  destruct (ordering_undefined operand) as (?&?&?&?).
  intros [-> | [-> | [-> | ->]]]%elem_of_ordering; done.
Qed.

Lemma matches_field_rejects doc field ops op operand :
  ops !! op = Some operand →
  Model.switch_op (get doc field) op operand = false →
  Model.matches_field doc (field, VObject ops) = false.
Proof.
  intros Hop Hsw. simpl. apply not_true_is_false. intros Hall.
  rewrite forallb_forall in Hall.
  specialize (Hall (op, operand)). simpl in Hall.
  rewrite Hsw in Hall. discriminate Hall.
  apply list_elem_of_In. by apply elem_of_map_to_list.
Qed.

Lemma matchesQuery_rejects doc (query : query) entry :
  entry ∈ query → Model.matches_field doc entry = false →
  Model._matchesQuery doc query = false.
Proof.
  intros Hin Hrej. apply not_true_is_false. intros Hall.
  unfold Model._matchesQuery in Hall. rewrite forallb_forall in Hall.
  rewrite Hall in Hrej; [done|]. by apply list_elem_of_In.
Qed.

(** *** RedisModel._matches *)

Lemma defined_true x : x ≠ VUndefined → RedisModel.defined x = true.
Proof. by destruct x. Qed.

Lemma check_operators_insert_unknown val ops op x :
  op ∉ known_operators →
  RedisModel.check_operators val (<[op := x]> ops) =
  RedisModel.check_operators val ops.
Proof.
  intros (?&?&?&?&?&?&?)%not_elem_of_known. unfold RedisModel.check_operators.
  by rewrite !get_insert_ne.
Qed.

Lemma matches_insert_unknown doc (before after : query) field ops op x :
  op ∉ known_operators →
  RedisModel._matches doc
    (before ++ (field, VObject (<[op := x]> ops)) :: after)%list =
  RedisModel._matches doc (before ++ (field, VObject ops) :: after)%list.
Proof.
  intros Hop. induction before as [|[f c] before IH]; simpl.
  - by rewrite check_operators_insert_unknown.
  - rewrite IH. done.
Qed.

Lemma check_operators_ordering_undefined ops :
  uses_only ordering_operators ops →
  (∀ op operand, ops !! op = Some operand → operand ≠ VUndefined) →
  RedisModel.check_operators VUndefined ops = Ok false.
Proof.
  intros [Hne Hord] Hdef.
  apply map_choose in Hne as (op & operand & Hop).
  assert (RedisModel.defined (get ops op) = true) as Hd.
  { apply defined_true. unfold get. rewrite Hop. simpl. eauto. }
  unfold RedisModel.check_operators.
  assert (∀ k, JS.gt VUndefined (get ops k) = false ∧
               JS.ge VUndefined (get ops k) = false ∧
               JS.lt VUndefined (get ops k) = false ∧
               JS.le VUndefined (get ops k) = false) as Hcmp
    by (intros; apply ordering_undefined).
  destruct (Hcmp "$gt") as (->&_), (Hcmp "$gte") as (_&->&_),
    (Hcmp "$lt") as (_&_&->&_), (Hcmp "$lte") as (_&_&_&->).
  simpl. rewrite !andb_true_r.
  destruct (elem_of_ordering op) as [-> | [-> | [-> | ->]]]; [eauto|..];
    rewrite Hd; repeat (destruct (RedisModel.defined _); try done).
Qed.

Lemma matches_never_true doc (query : query) field ops :
  (field, VObject ops) ∈ query →
  RedisModel.check_operators (get doc field) ops = Ok false →
  RedisModel._matches doc query ≠ Ok true.
Proof.
  intros Hin Hrej. induction query as [|[f c] rest IH]; [by inversion Hin|].
  apply elem_of_cons in Hin as [[= <- <-]|Hin]; simpl.
  - by rewrite Hrej.
  - destruct (negb (JS.strict_equal c VNull) && _ && _).
    + destruct (RedisModel.check_operators (get doc f) _) as [[]|];
        simpl; [by apply IH|done|done].
    + destruct (negb _); [done|by apply IH].
Qed.

(** On a query of the declared type the evaluation does not throw. *)
Lemma check_operators_total val ops :
  array_or_absent (get ops "$in") → array_or_absent (get ops "$nin") →
  ∃ b, RedisModel.check_operators val ops = Ok b.
Proof.
  intros Hin Hnin. unfold RedisModel.check_operators.
  repeat (destruct (RedisModel.defined _ && negb _); [by eexists|]).
  destruct Hin as [-> | [xs ->]], Hnin as [-> | [ys ->]]; simpl;
    repeat match goal with
           | |- context [if ?b then _ else _] => destruct b
           end; by eexists.
Qed.

Lemma matches_total doc (query : query) :
  well_typed query → ∃ b, RedisModel._matches doc query = Ok b.
Proof.
  induction query as [|[f c] rest IH]; intros Htyped; [by eexists|].
  destruct IH as [b Hb].
  { intros field ops Hin. apply (Htyped field ops). by apply elem_of_cons; right. }
  destruct c as [| | | | | |props|]; simpl;
    try (destruct (negb _); by eauto).
  destruct (Htyped f props) as [Hin Hnin]; [by apply elem_of_cons; left|].
  destruct (check_operators_total (get doc f) props Hin Hnin) as [pass ->].
  simpl. destruct pass; eauto.
Qed.

(** The only error of the evaluation is the [TypeError] of a call of
    [includes] on an operand that has no such method. *)
Lemma includes_TypeError recv val e :
  RedisModel.includes recv val = Throw e → e = TypeError.
Proof. destruct recv; simpl; congruence. Qed.

Lemma check_operators_false_or_TypeError val ops :
  RedisModel.check_operators val ops ≠ Ok true →
  RedisModel.check_operators val ops = Ok false ∨
  RedisModel.check_operators val ops = Throw TypeError.
Proof.
  destruct (RedisModel.check_operators val ops) as [[]|e] eqn:Hcheck;
    [done|by left|]. intros _. right. f_equal. revert Hcheck.
  unfold RedisModel.check_operators.
  repeat (destruct (RedisModel.defined _ && negb _); [done|]).
  destruct (RedisModel.defined (get ops "$in")); simpl.
  - destruct (RedisModel.includes (get ops "$in") val) as [[]|e1] eqn:Hin;
      simpl; [|done|intros [= <-]; by eapply includes_TypeError].
    destruct (RedisModel.defined (get ops "$nin")); simpl.
    + destruct (RedisModel.includes (get ops "$nin") val) as [[]|e2] eqn:Hnin;
        simpl; [done| |intros [= <-]; by eapply includes_TypeError].
      by destruct (RedisModel.defined _ && JS.strict_equal _ _).
    + by destruct (RedisModel.defined _ && JS.strict_equal _ _).
  - destruct (RedisModel.defined (get ops "$nin")); simpl.
    + destruct (RedisModel.includes (get ops "$nin") val) as [[]|e2] eqn:Hnin;
        simpl; [done| |intros [= <-]; by eapply includes_TypeError].
      by destruct (RedisModel.defined _ && JS.strict_equal _ _).
    + by destruct (RedisModel.defined _ && JS.strict_equal _ _).
Qed.

Lemma matches_false_or_TypeError doc (query : query) :
  RedisModel._matches doc query ≠ Ok true →
  RedisModel._matches doc query = Ok false ∨
  RedisModel._matches doc query = Throw TypeError.
Proof.
  induction query as [|[f c] rest IH]; [done|]. simpl.
  destruct (negb (JS.strict_equal c VNull) && _ && _).
  - destruct (RedisModel.check_operators (get doc f) _) as [[]|e] eqn:Hcheck;
      simpl; [done|by left|].
    intros _.
    destruct (check_operators_false_or_TypeError (get doc f)
                (JS.named_properties c)) as [Hf|Ht]; [by rewrite Hcheck|..].
    + congruence.
    + right. congruence.
  - destruct (negb _); [by left|done].
Qed.

(** *** RedisModelBasic.find *)

Lemma basic_match_loop_insert_unknown doc (before after : query)
    field ops op x match_ :
  op ∉ ["$gt"; "$lt"; "$in"] →
  RedisModelBasic.match_loop doc
    (before ++ (field, VObject (<[op := x]> ops)) :: after)%list match_ =
  RedisModelBasic.match_loop doc
    (before ++ (field, VObject ops) :: after)%list match_.
Proof.
  intros Hop. assert (op ≠ "$gt" ∧ op ≠ "$lt" ∧ op ≠ "$in") as (?&?&?)
    by set_solver.
  revert match_. induction before as [|[f c] before IH]; intros match_; simpl.
  - by rewrite !get_insert_ne.
  - destruct (String.eqb (JS.typeof c) "object" && _); [|apply IH].
    destruct (if RedisModel.defined _ then _ else _); simpl; [apply IH|done].
Qed.

Lemma basic_find_insert_unknown this (before after : query)
    field ops op x w :
  op ∉ ["$gt"; "$lt"; "$in"] →
  RedisModelBasic.find this
    (before ++ (field, VObject (<[op := x]> ops)) :: after)%list w =
  RedisModelBasic.find this (before ++ (field, VObject ops) :: after)%list w.
Proof.
  intros Hop. unfold RedisModelBasic.find, bind, Redis.getRedisClient.
  destruct (client w); [|done]. unfold Redis.keys.
  generalize (@nil object) as results.
  induction (List.filter _ _) as [|key keys IH]; intros results; [done|].
  simpl. unfold bind, Redis.get, parse, lift.
  destruct (Redis.falsy _); [apply IH|].
  destruct (JSON_parse _) as [doc|]; simpl; [|done].
  rewrite basic_match_loop_insert_unknown by done.
  destruct (RedisModelBasic.match_loop _ _ _) as [[]|]; simpl;
    [apply IH..|done].
Qed.

End EvaluatorFacts.

Section EvaluatorClaims.
Context {rt : Runtime}.

Lemma includes_undefined xs :
  JS.Array_includes xs VUndefined = true → VUndefined ∈ xs.
Proof.
  unfold JS.Array_includes. rewrite existsb_exists.
  intros (x & Hx%list_elem_of_In & Heq). by destruct x.
Qed.

(** On a field that the document lacks, the operators that can let a
    condition pass are [$ne], [$nin], and [$in] with a list that holds
    [undefined]. *)
Lemma switch_op_undefined_passes op operand :
  Model.switch_op VUndefined op operand = true →
  op = "$ne" ∨ op = "$nin" ∨
  (op = "$in" ∧ ∃ xs, operand = VArray xs ∧ VUndefined ∈ xs).
Proof.
  destruct (ordering_undefined operand) as (Hgt & Hge & Hlt & Hle).
  unfold Model.switch_op. rewrite Hgt, Hge, Hlt, Hle.
  repeat match goal with
         | |- context [String.eqb op ?s] =>
             destruct (String.eqb_spec op s); [subst op|]
         end; try done; eauto.
  destruct operand; try done. intros ?%includes_undefined. eauto 10.
Qed.

(** Claim C3, as the code has it. In a query, take a condition that is an
    operator object with a key [op] outside [$gt], [$gte], [$lt], [$lte],
    [$in], [$nin], [$ne]. [Model._matchesQuery] rejects every document
    (fail-closed). [RedisModel._matches] and [RedisModelBasic.find] never
    read [op]: their result is the one they give for the query without that
    key (fail-open). *)
Theorem unknown_operator_policy
    (doc : object) (field : string) (ops : object) (op : string)
    (operand : value) (before after : query) :
  op ∉ known_operators →
  let condition := VObject (<[op := operand]> ops) in
  let Q := (before ++ (field, condition) :: after)%list in
  let Q_without := (before ++ (field, VObject ops) :: after)%list in
  Model._matchesQuery doc Q = false ∧
  RedisModel._matches doc Q = RedisModel._matches doc Q_without ∧
  ∀ (this : RedisModelBasic.t) (w : world),
    RedisModelBasic.find this Q w = RedisModelBasic.find this Q_without w.
Proof.
  intros Hop condition Q Q_without. split; [|split].
  - apply matchesQuery_rejects with (field, condition).
    + apply elem_of_app. right. apply elem_of_cons. by left.
    + apply matches_field_rejects with op operand.
      * apply lookup_insert_eq.
      * by apply switch_op_unknown.
  - by apply matches_insert_unknown.
  - intros this w. apply basic_find_insert_unknown.
    apply not_elem_of_known in Hop as (?&?&?&?&?&?&?).
    rewrite !not_elem_of_cons. repeat split; try done. apply not_elem_of_nil.
Qed.

(** Claim C8, as the code has it. Let [doc[field]] be [undefined]: [field]
    is neither an own property of the document nor a member of
    [Object.prototype]. Let the query hold on [field] an operator object
    with at least one key, all its keys among [$gt], [$gte], [$lt], [$lte].
    Then [Model._matchesQuery] returns false. [RedisModel._matches] takes an
    operator whose operand is [undefined] for an absent one; when no
    operand is [undefined] it returns false, or throws the [TypeError] of
    another condition; it returns false on a query of the declared type,
    and on the query made of that condition alone. In
    [Model._matchesQuery] an operator object on such a field passes only
    if each of its keys is [$ne], [$nin], or [$in] with a list that holds
    [undefined]. *)
Theorem ordering_on_absent_field
    (doc : object) (field : string) (ops : object) (query : query) :
  doc !! field = None →
  Object_prototype field = None →
  (field, VObject ops) ∈ query →
  (uses_only ordering_operators ops →
   Model._matchesQuery doc query = false) ∧
  (uses_only ordering_operators ops →
   (∀ op operand, ops !! op = Some operand → operand ≠ VUndefined) →
   (RedisModel._matches doc query = Ok false ∨
    RedisModel._matches doc query = Throw TypeError) ∧
   (well_typed query → RedisModel._matches doc query = Ok false) ∧
   RedisModel._matches doc [(field, VObject ops)] = Ok false) ∧
  (Model._matchesQuery doc query = true →
   ∀ op operand, ops !! op = Some operand →
     op = "$ne" ∨ op = "$nin" ∨
     (op = "$in" ∧ ∃ xs, operand = VArray xs ∧ VUndefined ∈ xs)).
Proof.
  intros Hown Hinherited Hin.
  pose proof (get_absent doc field Hown Hinherited) as Habsent.
  split; [|split].
  - intros [Hne Hord].
    apply map_choose in Hne as (op & operand & Hop).
    apply matchesQuery_rejects with (field, VObject ops); [done|].
    apply matches_field_rejects with op operand; [done|].
    rewrite Habsent. apply switch_op_ordering_undefined. eauto.
  - intros Hord Hdef.
    pose proof (check_operators_ordering_undefined ops Hord Hdef) as Hrej.
    assert (RedisModel._matches doc query ≠ Ok true) as Hnever.
    { apply matches_never_true with field ops; [done|]. by rewrite Habsent. }
    split; [by apply matches_false_or_TypeError|]. split.
    + intros Htyped. destruct (matches_total doc query Htyped) as [[] Hb];
        congruence.
    + simpl. by rewrite Habsent, Hrej.
  - intros Hall op operand Hop.
    unfold Model._matchesQuery in Hall. rewrite forallb_forall in Hall.
    specialize (Hall (field, VObject ops)). simpl in Hall.
    rewrite Habsent, forallb_forall in Hall.
    apply switch_op_undefined_passes.
    apply (Hall (ltac:(by apply list_elem_of_In)) (op, operand)).
    apply list_elem_of_In. by apply elem_of_map_to_list.
Qed.

End EvaluatorClaims.

(** The query [{ name: { $regex: "^A" } }] on Bob: [RedisModel._matches]
    returns true although [$regex] is no operator. *)
Lemma unknown_operator_matches_in_RedisModel :
  ("$regex" ∉ known_operators) ∧
  RedisModel._matches (rt := Fixture.runtime [])
    (Fixture.user "id" "2" "Bob" 30)
    [("name", VObject {[ "$regex" := VString "^A" ]})] = Ok true.
Proof.
  split; [|by vm_compute].
  unfold known_operators. rewrite !not_elem_of_cons.
  repeat split; try discriminate. apply not_elem_of_nil.
Qed.

(** The same query on [Model._matchesQuery]: Bob is rejected. *)
Lemma unknown_operator_policy_witness :
  ("$regex" ∉ known_operators) ∧
  Model._matchesQuery (rt := Fixture.runtime [])
    (Fixture.user "_id" "2" "Bob" 30)
    [("name", VObject {[ "$regex" := VString "^A" ]})] = false.
Proof.
  assert ("$regex" ∉ known_operators) as Hop.
  { unfold known_operators. rewrite !not_elem_of_cons.
    repeat split; try discriminate. apply not_elem_of_nil. }
  split; [exact Hop|].
  exact (proj1 (unknown_operator_policy (rt := Fixture.runtime [])
           (Fixture.user "_id" "2" "Bob" 30) "name" ∅ "$regex" (VString "^A")
           [] [] Hop)).
Defined.

(** The query [{ age: { $gt: undefined } }] on a document without [age]:
    [RedisModel._matches] returns true. *)
Lemma undefined_operand_matches_absent_field :
  ({[ "name" := VString "Dora" ]} : object) !! "age" = None ∧
  uses_only ordering_operators {[ "$gt" := VUndefined ]} ∧
  RedisModel._matches (rt := Fixture.runtime []) {[ "name" := VString "Dora" ]}
    [("age", VObject {[ "$gt" := VUndefined ]})] = Ok true.
Proof.
  split; [done|]. split; [|by vm_compute]. split.
  - apply map_non_empty_singleton.
  - intros op [x [<- _]%lookup_singleton_Some].
    unfold ordering_operators. apply elem_of_cons. by left.
Qed.

(** The queries [{ age: {} }] and [{ age: { $in: [undefined] } }] on a
    document without [age]: [Model._matchesQuery] returns true. *)
Example absent_field_matches_without_ne_or_nin :
  Model._matchesQuery (rt := Fixture.runtime []) {[ "name" := VString "Dora" ]}
    [("age", VObject ∅)] = true ∧
  Model._matchesQuery (rt := Fixture.runtime []) {[ "name" := VString "Dora" ]}
    [("age", VObject {[ "$in" := VArray [VUndefined] ]})] = true.
Proof. split; by vm_compute. Qed.

(** The query [{ constructor: { $gt: "" } }] on a document without a
    property [constructor]: the document inherits the function [Object],
    whose text is above the empty string, and both evaluators return
    true. *)
Example inherited_member_is_not_absent :
  let doc : object := {[ "name" := VString "Dora" ]} in
  let Q := [("constructor", VObject {[ "$gt" := VString "" ]})] in
  doc !! "constructor" = None ∧
  get doc "constructor" = VFunction "constructor" ∧
  Model._matchesQuery (rt := Fixture.runtime []) doc Q = true ∧
  RedisModel._matches (rt := Fixture.runtime []) doc Q = Ok true.
Proof. intros doc Q. repeat split; by vm_compute. Qed.

(** The query [{ age: { $gte: 18 } }] on a document without [age]: both
    evaluators return false. *)
Lemma ordering_on_absent_field_witness :
  let doc : object := {[ "name" := VString "Dora" ]} in
  let ops : object := {[ "$gte" := VNumber (of_Z 18) ]} in
  doc !! "age" = None ∧
  Object_prototype "age" = None ∧
  uses_only ordering_operators ops ∧
  (∀ op operand, ops !! op = Some operand → operand ≠ VUndefined) ∧
  Model._matchesQuery (rt := Fixture.runtime []) doc [("age", VObject ops)]
    = false ∧
  RedisModel._matches (rt := Fixture.runtime []) doc [("age", VObject ops)]
    = Ok false.
Proof.
  intros doc ops.
  assert (uses_only ordering_operators ops) as Hord.
  { split; [apply map_non_empty_singleton|].
    intros op [x [<- _]%lookup_singleton_Some].
    unfold ordering_operators. rewrite !elem_of_cons. auto. }
  assert (∀ op operand, ops !! op = Some operand → operand ≠ VUndefined)
    as Hdef.
  { intros op operand [_ <-]%lookup_singleton_Some. discriminate. }
  destruct (ordering_on_absent_field (rt := Fixture.runtime [])
              doc "age" ops [("age", VObject ops)]
              eq_refl eq_refl ltac:(apply elem_of_cons; by left))
    as (Hmodel & Hredis & _).
  destruct (Hredis Hord Hdef) as (_ & _ & Hsingle).
  exact (conj eq_refl (conj eq_refl
           (conj Hord (conj Hdef (conj (Hmodel Hord) Hsingle))))).
Defined.

(** ** The scan and the CRUD methods of Model *)

Section ModelFacts.
Context {rt : Runtime}.

Lemma falsy_text raw : raw ≠ "" → Redis.falsy (Some raw) = false.
Proof. intros ?. simpl. by apply String.eqb_neq. Qed.

Lemma falsy_false raw :
  Redis.falsy raw = false → ∃ text, raw = Some text ∧ text ≠ "".
Proof.
  destruct raw as [text|]; [|done]. simpl. intros ?%String.eqb_neq. eauto.
Qed.

(** The keys that [KEYS prefix*] returns. *)
Lemma keys_spec prefix w :
  ∃ keys, Redis.keys prefix w = (Ok keys, w) ∧
    ∀ key, key ∈ keys ↔
           String.prefix prefix key = true ∧ is_Some (redis w !! key).
Proof.
  eexists. split; [reflexivity|]. intros key.
  rewrite list_elem_of_In, filter_In, <- list_elem_of_In, list_elem_of_fmap.
  split.
  - intros [([k raw] & -> & Hin%elem_of_map_to_list) ?]. eauto.
  - intros [? [raw Hraw]]. split; [|done]. exists (key, raw).
    split; [done|]. by apply elem_of_map_to_list.
Qed.

(** [Object.assign] is the shallow merge: a field of [source] overwrites,
    any other field stays as [target] has it. *)
Lemma Object_assign_lookup (target source : object) field :
  Object_assign target source !! field =
  match source !! field with
  | Some v => Some v
  | None => target !! field
  end.
Proof.
  unfold Object_assign. rewrite lookup_union.
  by destruct (source !! field), (target !! field).
Qed.

Lemma Object_assign_empty (target : object) : Object_assign target ∅ = target.
Proof. unfold Object_assign. apply (left_id_L ∅ (∪)). Qed.

(** The scan reads the keyspace and leaves it as it is. *)
Lemma fetch_loop_world query keys results w :
  (Model.fetch_loop query keys results w).2 = w.
Proof.
  revert results. induction keys as [|key keys IH]; intros results; [done|].
  simpl. unfold bind, Redis.get, parse. simpl.
  destruct (Redis.falsy _); [apply IH|].
  destruct (JSON_parse _) as [doc|]; simpl; [|done].
  destruct (Model._matchesQuery _ _); apply IH.
Qed.

(** On keys whose texts decode, the scan returns the documents that the
    predicate accepts. *)
Lemma fetch_loop_spec query keys results w :
  (∀ key raw, key ∈ keys → redis w !! key = Some raw → raw ≠ "" →
              is_Some (JSON_parse raw)) →
  ∃ found,
    Model.fetch_loop query keys results w = (Ok found, w) ∧
    ∀ doc, doc ∈ found ↔
      doc ∈ results ∨
      ∃ key raw, key ∈ keys ∧ redis w !! key = Some raw ∧ raw ≠ "" ∧
                 JSON_parse raw = Some doc ∧
                 Model._matchesQuery doc query = true.
Proof.
  revert results.
  induction keys as [|key keys IH]; intros results Hdec.
  - exists results. split; [done|]. intros doc. split; [by left|].
    intros [?|(?&?&[]%elem_of_nil&_)]; done.
  - assert (∀ key' raw, key' ∈ keys → redis w !! key' = Some raw →
              raw ≠ "" → is_Some (JSON_parse raw)) as Hdec'.
    { intros ?? Hin. apply Hdec. by apply elem_of_cons; right. }
    simpl. unfold bind at 1. unfold Redis.get.
    destruct (Redis.falsy (redis w !! key)) eqn:Hraw.
    + destruct (IH results Hdec') as (found & -> & Hfound).
      exists found. split; [done|]. intros doc. rewrite Hfound.
      split; (intros [?|(k & raw & Hk & Hget & Hne & Hrest)]; [by left|right]).
      * exists k, raw. rewrite elem_of_cons. eauto.
      * apply elem_of_cons in Hk as [->|Hk]; [|by eauto 10].
        rewrite Hget in Hraw. by rewrite falsy_text in Hraw.
    + apply falsy_false in Hraw as (text & Hget & Hne). rewrite Hget. simpl.
      destruct (Hdec key text) as [doc0 Hdoc0];
        [by apply elem_of_cons; left|done|done|].
      unfold bind, parse. rewrite Hdoc0. simpl.
      destruct (Model._matchesQuery doc0 query) eqn:Hm.
      * destruct (IH (results ++ [doc0])%list Hdec') as (found & -> & Hfound).
        exists found. split; [done|]. intros doc. rewrite Hfound.
        rewrite elem_of_app, list_elem_of_singleton. split.
        -- intros [[?| ->]|(k & raw & Hk & Hrest)]; [by left|right..].
           ++ exists key, text. rewrite elem_of_cons. eauto 10.
           ++ exists k, raw. rewrite elem_of_cons. eauto.
        -- intros [?|(k & raw & Hk & Hget' & Hne' & Hp & Hq)]; [by eauto|].
           apply elem_of_cons in Hk as [->|Hk]; [|by right; eauto 10].
           left. right. congruence.
      * destruct (IH results Hdec') as (found & -> & Hfound).
        exists found. split; [done|]. intros doc. rewrite Hfound. split.
        -- intros [?|(k & raw & Hk & Hrest)]; [by left|right].
           exists k, raw. rewrite elem_of_cons. eauto.
        -- intros [?|(k & raw & Hk & Hget' & Hne' & Hp & Hq)]; [by left|].
           apply elem_of_cons in Hk as [->|Hk]; [|by right; eauto 10].
           congruence.
Qed.

(** [find(query).exec()] on the builder as [find] returns it is the scan. *)
Lemma exec_find this query w :
  QueryBuilder.exec (Model.find this query) w = Model.fetcher this query w.
Proof.
  unfold QueryBuilder.exec, Model.find, bind, ret. simpl.
  by destruct (Model.fetcher this query w) as [[found|e] w'].
Qed.

Lemma fetcher_world this query w : (Model.fetcher this query w).2 = w.
Proof. unfold Model.fetcher, bind. simpl. apply fetch_loop_world. Qed.

(** Claim C1. In a collection whose entries decode, [find(Q).exec()]
    returns a result, and a document is in it if and only if it is stored
    under the key prefix of the collection and [_matchesQuery] accepts it
    for [Q]; the empty query accepts every document, so [find({})] returns
    every document of the collection. *)
Theorem find_returns_the_matching_documents
    (this : Model.t) (Q : query) (w : world) :
  let prefix := Model.name this +:+ ":" in
  decodable prefix w →
  (∃ found,
     QueryBuilder.exec (Model.find this Q) w = (Ok found, w) ∧
     ∀ D, D ∈ found ↔ stored prefix w D ∧ Model._matchesQuery D Q = true) ∧
  (∀ D, Model._matchesQuery D [] = true) ∧
  (∃ all,
     QueryBuilder.exec (Model.find this []) w = (Ok all, w) ∧
     ∀ D, D ∈ all ↔ stored prefix w D).
Proof.
  intros prefix Hdec.
  assert (∀ Q', ∃ found,
     QueryBuilder.exec (Model.find this Q') w = (Ok found, w) ∧
     ∀ D, D ∈ found ↔ stored prefix w D ∧ Model._matchesQuery D Q' = true)
    as Hfind.
  { intros Q'. rewrite exec_find. unfold Model.fetcher, bind. fold prefix.
    destruct (keys_spec prefix w) as (keys & -> & Hkeys).
    destruct (fetch_loop_spec Q' keys [] w) as (found & -> & Hfound).
    { intros key raw [Hp _]%Hkeys Hget Hne. by apply (Hdec key raw). }
    exists found. split; [done|]. intros D. rewrite Hfound. split.
    - intros [[]%elem_of_nil|(key & raw & [Hp _]%Hkeys & ? & ? & ? & ?)].
      split; [|done]. by exists key, raw.
    - intros [(key & raw & Hp & Hget & Hne & Hparse) Hm]. right.
      exists key, raw. repeat split; try done. apply Hkeys. eauto. }
  split; [apply Hfind|]. split; [done|].
  destruct (Hfind []) as (all & Hexec & Hall). exists all.
  split; [done|]. intros D. rewrite Hall. simpl. tauto.
Qed.


(** Claim C6. When the entry of [id] decodes to a document that the codec
    round-trips, [update(id, {})] returns that document and the document
    decoded under the key after the call is the one decoded before it. *)
Theorem update_empty_partial_keeps_document
    (this : Model.t) (id : string) (w : world) (raw : string)
    (doc : object) :
  redis w !! Model._key this id = Some raw →
  JSON_parse raw = Some doc →
  JSON_parse (JSON_stringify doc) = Some doc →
  JSON_parse "" = None →
  ∃ w',
    Model.update this id ∅ w = (Ok (Some doc), w') ∧
    Model.findById this id w = (Ok (Some doc), w) ∧
    Model.findById this id w' = (Ok (Some doc), w') ∧
    ∀ key, key ≠ Model._key this id → redis w' !! key = redis w !! key.
Proof.
  intros Hget Hparse Hround Hempty.
  assert (raw ≠ "") as Hne by (intros ->; congruence).
  assert (JSON_stringify doc ≠ "") as Hne' by (intros Heq; congruence).
  eexists. split; [|split; [|split]].
  - unfold Model.update, bind, Redis.get, parse.
    rewrite Hget, falsy_text by done. simpl. rewrite Hparse. simpl.
    rewrite Object_assign_empty. reflexivity.
  - unfold Model.findById, bind, Redis.get, parse.
    rewrite Hget, falsy_text by done. simpl. by rewrite Hparse.
  - unfold Model.findById, bind, Redis.get, parse. simpl.
    rewrite lookup_insert_eq, falsy_text by done. simpl. by rewrite Hround.
  - intros key Hkey. simpl. by rewrite lookup_insert_ne.
Qed.

End ModelFacts.

(** ** findOne and findOneAndUpdate *)

Section FindOneFacts.
Context {rt : Runtime}.

Lemma slice_first {A} (results : list A) :
  JS.Array_slice results (S754_zero false) (Some (of_Z 1)) = take 1 results.
Proof.
  unfold JS.Array_slice.
  change (JS.ToIntegerOrInfinity (of_Z 1)) with (JS.Finite 1).
  change (JS.ToIntegerOrInfinity (S754_zero false)) with (JS.Finite 0).
  simpl JS.relative_index.
  destruct results as [|doc rest]; [done|].
  rewrite Z.min_l, Z.min_l by (simpl length; lia). done.
Qed.

Lemma first_of_slice {A} (results : list A) :
  (if (0 <? length (take 1 results))%nat then take 1 results !! 0%nat
   else None) = head results.
Proof. by destruct results. Qed.

(** [Model.findOne] is the head of what [find] fetches. *)
Lemma Model_findOne_head this (Q : query) w :
  ∃ r, QueryBuilder.exec (Model.find this Q) w = (r, w) ∧
       Model.findOne this Q w = (outcome_map head r, w).
Proof.
  rewrite exec_find. unfold Model.findOne, QueryBuilder.exec, bind, ret.
  simpl. pose proof (fetcher_world this Q w) as Hw.
  destruct (Model.fetcher this Q w) as [[found|e] w1]; simpl in *; subst w1.
  - exists (Ok found). split; [done|]. unfold QueryBuilder.limit_step. simpl.
    by rewrite slice_first, first_of_slice.
  - by exists (Throw e).
Qed.

Lemma find_loop_world query keys results w :
  (RedisModel.find_loop query keys results w).2 = w.
Proof.
  revert results. induction keys as [|key keys IH]; intros results; [done|].
  simpl. unfold bind, Redis.get, parse, lift. simpl.
  destruct (Redis.falsy _); [apply IH|].
  destruct (JSON_parse _) as [doc|]; simpl; [|done].
  destruct (RedisModel._matches _ _) as [[]|]; simpl; try apply IH. done.
Qed.

(** When the loop of [find] returns, the loop of [findOne] over the same
    keys returns the first document that [find] adds. *)
Lemma find_loop_head query keys results found w w' :
  RedisModel.find_loop query keys results w = (Ok found, w') →
  ∃ more, found = (results ++ more)%list ∧
          RedisModel.findOne_loop query keys w = (Ok (head more), w).
Proof.
  revert results. induction keys as [|key keys IH]; intros results.
  - intros [= <- <-]. exists []. by rewrite app_nil_r.
  - simpl. unfold bind, Redis.get, parse, lift. simpl.
    destruct (Redis.falsy _); [apply IH|].
    destruct (JSON_parse _) as [doc|]; simpl; [|done].
    destruct (RedisModel._matches _ _) as [[]|]; simpl; [|apply IH|done].
    intros (more & -> & _)%IH. exists (doc :: more).
    by rewrite <- app_assoc.
Qed.

(** On keys whose texts decode and a query of the declared type, the loop
    of [find] returns. *)
Lemma find_loop_returns (query : query) keys results w :
  (∀ key raw, key ∈ keys → redis w !! key = Some raw → raw ≠ "" →
              is_Some (JSON_parse raw)) →
  well_typed query →
  ∃ found, RedisModel.find_loop query keys results w = (Ok found, w).
Proof.
  intros Hdec Htyped. revert results.
  induction keys as [|key keys IH]; intros results; [by eexists|].
  assert (∀ key' raw, key' ∈ keys → redis w !! key' = Some raw →
            raw ≠ "" → is_Some (JSON_parse raw)) as Hdec'.
  { intros ?? Hin. apply Hdec. by apply elem_of_cons; right. }
  simpl. unfold bind at 1. unfold Redis.get.
  destruct (Redis.falsy (redis w !! key)) eqn:Hraw; [by apply IH|].
  apply falsy_false in Hraw as (text & Hget & Hne). rewrite Hget. simpl.
  destruct (Hdec key text) as [doc Hdoc];
    [by apply elem_of_cons; left|done|done|].
  destruct (matches_total doc query Htyped) as [b Hb].
  unfold bind, parse, lift. rewrite Hdoc. simpl. rewrite Hb.
  destruct b; by apply IH.
Qed.

(** Claim C9. [findOne(Q)] is the head of the result of [find(Q)]: the
    first matching document of the scan, or [null] when none matches, and
    the keyspace is as before. [Model.findOne] does so by [limit(1)] (and
    throws when the scan throws). [RedisModel.findOne] scans on its own and
    agrees with [find] whenever [find] returns, which it does on a
    collection that decodes and a query of the declared type. *)
Theorem findOne_is_the_head_of_find :
  (∀ (this : Model.t) (Q : query) (w : world),
     ∃ r, QueryBuilder.exec (Model.find this Q) w = (r, w) ∧
          Model.findOne this Q w = (outcome_map head r, w)) ∧
  (∀ (this : RedisModel.t) (Q : query) (w w' : world) (found : list object),
     RedisModel.find this Q w = (Ok found, w') →
     w' = w ∧ RedisModel.findOne this Q w = (Ok (head found), w)) ∧
  (∀ (this : RedisModel.t) (Q : query) (w : world),
     client w = true →
     decodable (RedisModel.modelName this +:+ ":") w →
     well_typed Q →
     ∃ found,
       RedisModel.find this Q w = (Ok found, w) ∧
       RedisModel.findOne this Q w = (Ok (head found), w)).
Proof.
  assert (∀ (this : RedisModel.t) (Q : query) (w w' : world) found,
            RedisModel.find this Q w = (Ok found, w') →
            w' = w ∧ RedisModel.findOne this Q w = (Ok (head found), w))
    as Hhead.
  { intros this Q w w' found. unfold RedisModel.find, RedisModel.findOne.
    unfold bind at 1 3, Redis.getRedisClient.
    destruct (client w); [|done].
    unfold bind, Redis.keys. intros Hfind. split.
    - pose proof (find_loop_world Q
        (List.filter (String.prefix (RedisModel.modelName this +:+ ":"))
           (map_to_list (redis w)).*1) [] w) as Hw.
      by rewrite Hfind in Hw.
    - by apply find_loop_head in Hfind as (more & -> & ->). }
  split; [apply Model_findOne_head|]. split; [exact Hhead|].
  intros this Q w Hclient Hdec Htyped.
  destruct (keys_spec (RedisModel.modelName this +:+ ":") w)
    as (keys & Hkeys & Hmem).
  destruct (find_loop_returns Q keys [] w) as [found Hloop]; [|done|].
  { intros key raw [Hp _]%Hmem Hget Hne. by apply (Hdec key raw). }
  assert (RedisModel.find this Q w = (Ok found, w)) as Hfind.
  { unfold RedisModel.find. unfold bind at 1. unfold Redis.getRedisClient.
    rewrite Hclient. unfold bind. by rewrite Hkeys. }
  exists found. split; [done|]. by apply (Hhead this Q w w found).
Qed.

(** The first entry on which the query returns true is what the loop of
    [findOne] returns, when the entries before it decode and the query
    can be evaluated on them. *)
Lemma findOne_loop_first query keys w :
  (∀ key raw, key ∈ keys → redis w !! key = Some raw → raw ≠ "" →
     ∃ doc b, JSON_parse raw = Some doc ∧
              RedisModel._matches doc query = Ok b) →
  (∃ key raw doc, key ∈ keys ∧ redis w !! key = Some raw ∧ raw ≠ "" ∧
     JSON_parse raw = Some doc ∧ RedisModel._matches doc query = Ok true) →
  ∃ key raw doc, key ∈ keys ∧ redis w !! key = Some raw ∧ raw ≠ "" ∧
    JSON_parse raw = Some doc ∧ RedisModel._matches doc query = Ok true ∧
    RedisModel.findOne_loop query keys w = (Ok (Some doc), w).
Proof.
  induction keys as [|key keys IH]; intros Hok Hex.
  { by destruct Hex as (?&?&?&[]%elem_of_nil&_). }
  assert ((∃ k raw doc, k ∈ keys ∧ redis w !! k = Some raw ∧ raw ≠ "" ∧
            JSON_parse raw = Some doc ∧
            RedisModel._matches doc query = Ok true ∧
            RedisModel.findOne_loop query keys w = (Ok (Some doc), w)) →
          ∃ k raw doc, k ∈ key :: keys ∧ redis w !! k = Some raw ∧
            raw ≠ "" ∧ JSON_parse raw = Some doc ∧
            RedisModel._matches doc query = Ok true ∧
            RedisModel.findOne_loop query keys w = (Ok (Some doc), w))
    as Hweaken.
  { intros (k & raw & doc & Hk & Hrest). exists k, raw, doc.
    rewrite elem_of_cons. eauto. }
  assert (∀ k raw, k ∈ keys → redis w !! k = Some raw → raw ≠ "" →
            ∃ doc b, JSON_parse raw = Some doc ∧
                     RedisModel._matches doc query = Ok b) as Hok'.
  { intros ?? Hin. apply Hok. by apply elem_of_cons; right. }
  simpl. unfold bind at 1. unfold Redis.get.
  destruct (Redis.falsy (redis w !! key)) eqn:Hraw.
  - apply Hweaken, IH; [done|].
    destruct Hex as (k & raw & doc & Hk & Hget & Hne & Hrest).
    apply elem_of_cons in Hk as [->|Hk]; [|by eauto 10].
    rewrite Hget in Hraw. by rewrite falsy_text in Hraw.
  - apply falsy_false in Hraw as (text & Hget & Hne). rewrite Hget. simpl.
    destruct (Hok key text) as (doc0 & b & Hdoc0 & Hb);
      [by apply elem_of_cons; left|done|done|].
    unfold bind, parse, lift. rewrite Hdoc0. simpl. rewrite Hb.
    destruct b.
    + exists key, text, doc0. rewrite elem_of_cons. eauto 10.
    + apply Hweaken, IH; [done|].
      destruct Hex as (k & raw & doc & Hk & Hget' & Hne' & Hp & Hm).
      apply elem_of_cons in Hk as [->|Hk]; [|by eauto 10]. congruence.
Qed.

Lemma well_keyed_decodable this w :
  well_keyed this w → decodable (RedisModel.modelName this +:+ ":") w.
Proof.
  intros Hwk key raw Hget Hp Hne.
  destruct (Hwk key raw Hget Hp Hne) as (doc & id & -> & _). eauto.
Qed.

(** Claim C4, as the code has it. On a collection whose entries decode and
    a query of the declared type, when some stored document matches [Q],
    [findOneAndUpdate(Q, P, options)] takes the first match of the scan,
    the document that [findOne(Q)] returns. When the [id] of that document
    is truthy, it writes the encoding of the shallow merge of the document
    with [P] under the key of that [id], and returns the document as it was
    before the update, unless [returnNew] is true, in which case it returns
    the merge. When the [id] is falsy (absent, or the empty string that
    [create] lets through), it returns [null] and writes nothing. In a
    collection of documents that are stored under the key of their
    non-empty [id], the [id] is truthy and the key written is the key that
    held the document. *)
Theorem findOneAndUpdate_returns_old_or_new
    (this : RedisModel.t) (Q : query) (P : object) (opts : options)
    (w : world) :
  let prefix := RedisModel.modelName this +:+ ":" in
  client w = true →
  decodable prefix w →
  well_typed Q →
  (∃ D, stored prefix w D ∧ RedisModel._matches D Q = Ok true) →
  ∃ key raw doc,
    String.prefix prefix key = true ∧ redis w !! key = Some raw ∧
    JSON_parse raw = Some doc ∧ RedisModel._matches doc Q = Ok true ∧
    RedisModel.findOne this Q w = (Ok (Some doc), w) ∧
    let merged := Object_assign doc P in
    RedisModel.findOneAndUpdate this Q P opts w =
      (if JS.ToBoolean (get doc "id")
       then (Ok (Some (match returnNew opts with
                       | Some true => merged
                       | _ => doc
                       end)),
             Redis.set_redis
               (insert (RedisModel.getKey this (get doc "id"))
                       (JSON_stringify merged)) w)
       else (Ok None, w)) ∧
    (well_keyed this w →
     JS.ToBoolean (get doc "id") = true ∧
     RedisModel.getKey this (get doc "id") = key) ∧
    ∀ field, merged !! field =
             match P !! field with
             | Some v => Some v
             | None => doc !! field
             end.
Proof.
  intros prefix Hclient Hdec Htyped
    (D & (k0 & raw0 & Hp0 & Hget0 & Hne0 & HD) & Hm0).
  destruct (keys_spec prefix w) as (keys & Hkeys & Hmem).
  destruct (findOne_loop_first Q keys w)
    as (key & raw & doc & Hkey & Hget & Hne & Hdoc & Hm & Hloop).
  { intros k raw [Hp _]%Hmem Hget Hne.
    destruct (Hdec k raw Hget Hp Hne) as [doc Hdoc].
    destruct (matches_total doc Q Htyped) as [b ?]. eauto. }
  { exists k0, raw0, D. repeat split; try done. apply Hmem. eauto. }
  apply Hmem in Hkey as [Hp _].
  assert (RedisModel.findOne this Q w = (Ok (Some doc), w)) as Hone.
  { unfold RedisModel.findOne. unfold bind at 1, Redis.getRedisClient.
    rewrite Hclient. unfold bind. fold prefix. by rewrite Hkeys. }
  exists key, raw, doc.
  split; [done|]. split; [done|]. split; [done|]. split; [done|].
  split; [done|]. split; [|split].
  - unfold RedisModel.findOneAndUpdate. unfold bind at 1. rewrite Hone.
    destruct (JS.ToBoolean (get doc "id")); simpl; [|done].
    unfold bind, Redis.getRedisClient. rewrite Hclient. simpl.
    by destruct (returnNew opts) as [[]|].
  - intros Hwk.
    destruct (Hwk key raw Hget Hp Hne)
      as (doc' & id & Hdoc' & Hid & Hidne & ->).
    assert (doc' = doc) as -> by congruence.
    unfold get. rewrite Hid. simpl. split; [|done].
    apply negb_true_iff. by apply String.eqb_neq.
  - intros field. apply Object_assign_lookup.
Qed.

End FindOneFacts.

(** ** create and the identity field *)

Section CreateFacts.
Context {rt : Runtime}.

(** [RedisModel.create] keeps the [id] that the caller gives, whatever it
    is, as long as it is neither [null] nor [undefined]. *)
Lemma RedisModel_create_given_id this (doc : object) w id :
  client w = true → doc !! "id" = Some id →
  id ≠ VUndefined → id ≠ VNull →
  RedisModel.create this doc w =
    (Ok doc,
     Redis.set_redis
       (insert (RedisModel.getKey this id) (JSON_stringify doc)) w).
Proof.
  intros Hclient Hid ??. unfold RedisModel.create.
  unfold bind at 1, Redis.getRedisClient. rewrite Hclient.
  unfold get. rewrite Hid. simpl.
  destruct id; try done; unfold bind, ret; simpl;
    by rewrite (insert_id doc "id" _ Hid).
Qed.

(** [RedisModelBasic.create] replaces every falsy [id], the empty string
    among them, by a fresh identifier. *)
Lemma RedisModelBasic_create_id_not_empty this (doc : object) w :
  client w = true →
  (∀ n, uuid_of_call n ≠ "") →
  (∀ v, doc !! "id" = Some v → ∃ s, v = VString s) →
  ∃ newDoc w' id,
    RedisModelBasic.create this doc w = (Ok newDoc, w') ∧
    newDoc !! "id" = Some (VString id) ∧ id ≠ "".
Proof.
  intros Hclient Huuid Hstr. unfold RedisModelBasic.create.
  unfold bind at 1, Redis.getRedisClient. rewrite Hclient.
  unfold get. destruct (doc !! "id") as [v|] eqn:Hid; simpl.
  - destruct (Hstr v eq_refl) as [s ->]. simpl.
    destruct (String.eqb_spec s "") as [->|Hs]; simpl.
    + do 3 eexists. split; [reflexivity|]. by rewrite lookup_insert_eq.
    + do 3 eexists. split; [reflexivity|]. by rewrite lookup_insert_eq.
  - do 3 eexists. split; [reflexivity|]. by rewrite lookup_insert_eq.
Qed.

Lemma schema_fill_keeps (data doc : object) fields field :
  field ∉ fields →
  foldl (λ doc f, <[f := JS.nullish (get data f) VNull]> doc) doc fields
    !! field = doc !! field.
Proof.
  revert doc. induction fields as [|f fields IH]; intros doc Hnot; [done|].
  apply not_elem_of_cons in Hnot as [? ?]. simpl.
  by rewrite IH, lookup_insert_ne.
Qed.

(** [Model.create] gives the document the generated identifier, unless the
    schema declares [_id] itself. *)
Lemma Model_create_id this (data : object) w :
  "_id" ∉ Model.schema this →
  ∃ doc w',
    Model.create this data w = (Ok doc, w') ∧
    doc !! "_id" = Some (VString (uuid_of_call (uuid_calls w))).
Proof.
  intros Hschema. do 2 eexists. split.
  - unfold Model.create, bind, uuidv4, Redis.set, ret. reflexivity.
  - by rewrite schema_fill_keeps, lookup_singleton_eq.
Qed.

Lemma schema_fill_sets (data doc : object) fields field :
  field ∈ fields →
  foldl (λ doc f, <[f := JS.nullish (get data f) VNull]> doc) doc fields
    !! field = Some (JS.nullish (get data field) VNull).
Proof.
  revert doc. induction fields as [|f fields IH]; intros doc Hin.
  { by apply elem_of_nil in Hin. }
  simpl. destruct (decide (field ∈ fields)) as [?|Hnot]; [by apply IH|].
  apply elem_of_cons in Hin as [->|?]; [|done].
  by rewrite schema_fill_keeps, lookup_insert_eq.
Qed.

(** When the schema declares [_id], the loop over the schema overwrites the
    generated identifier by what the caller gave for [_id], or by [null];
    the key is still that of the generated identifier. *)
Lemma Model_create_declared_id this (data : object) w :
  "_id" ∈ Model.schema this →
  ∃ doc w',
    Model.create this data w = (Ok doc, w') ∧
    doc !! "_id" = Some (JS.nullish (get data "_id") VNull) ∧
    redis w' !! Model._key this (uuid_of_call (uuid_calls w))
      = Some (JSON_stringify doc).
Proof.
  intros Hschema. do 2 eexists. split; [|split].
  - unfold Model.create, bind, uuidv4, Redis.set, ret. reflexivity.
  - by apply schema_fill_sets.
  - simpl. by rewrite lookup_insert_eq.
Qed.

(** Claim C7 does not hold of [RedisModel.create]: given the document
    [{ id: "", name: "Bob" }] it generates no identifier, since [??] lets
    the empty string through; the document that it returns and persists,
    under the key ["User:"], has the empty string for its [id]. *)
Theorem RedisModel_create_persists_empty_id :
  let this := RedisModel.Build "User" in
  let doc : object := {[ "id" := VString ""; "name" := VString "Bob" ]} in
  let w := {| redis := ∅; client := true; uuid_calls := 0 |} in
  ∃ w',
    RedisModel.create this doc w = (Ok doc, w') ∧
    doc !! "id" = Some (VString "") ∧
    redis w' !! "User:" = Some (JSON_stringify doc) ∧
    uuid_calls w' = 0.
Proof.
  intros this doc w. eexists. split.
  - by apply RedisModel_create_given_id with (id := VString "").
  - split; [done|]. split; [|done]. simpl. by rewrite lookup_insert_eq.
Qed.

End CreateFacts.

(** ** The properties on the collection of the scenarios *)

Module Scenario.
Import Fixture.

(** Every entry of a keyspace given by its inserts has a property. *)
Ltac each_entry tac :=
  repeat match goal with
         | |- map_Forall _ {[ _ := _ ]} => apply map_Forall_singleton; tac
         | |- map_Forall _ (<[_ := _]> _) =>
             apply map_Forall_insert_2; [tac|]
         end.

Ltac not_under_prefix :=
  let Hp := fresh in
  intros Hp; vm_compute in Hp; discriminate Hp.

Lemma users_decodable :
  decodable (rt := runtime (users "_id")) "User:" (world_of "_id").
Proof.
  unfold decodable, world_of, keyspace. cbn [redis].
  each_entry ltac:(first [not_under_prefix
                         | intros _ _; eexists; vm_compute; reflexivity]).
Qed.

Ltac keyed_entry doc id :=
  intros _ _; exists doc, id;
  split; [vm_compute; reflexivity|];
  split; [vm_compute; reflexivity|];
  split; [discriminate|vm_compute; reflexivity].

Lemma users_well_keyed :
  well_keyed (rt := runtime (users "id")) UserModel (world_of "id").
Proof.
  unfold well_keyed, world_of, keyspace. cbn [redis].
  apply map_Forall_insert_2; [keyed_entry (user "id" "1" "Alice" 25) "1"|].
  apply map_Forall_insert_2; [keyed_entry (bob "id") "2"|].
  apply map_Forall_insert_2; [keyed_entry (user "id" "3" "Charlie" 40) "3"|].
  apply map_Forall_singleton. not_under_prefix.
Qed.

(** §8: [find({ age: { $gte: 30 } }).sort({ age: -1 }).exec()] returns
    Charlie, then Bob. *)
Example find_adults_by_age_descending :
  (QueryBuilder.exec (rt := runtime (users "_id"))
     (QueryBuilder.sort [("age", of_Z (-1))]
        (Model.find (rt := runtime (users "_id")) Users
           [("age", VObject {[ "$gte" := VNumber (of_Z 30) ]})]))
     (world_of "_id")).1
  = Ok [user "_id" "3" "Charlie" 40; bob "_id"].
Proof. vm_compute. reflexivity. Qed.

(** §8: [findOneAndUpdate({ name: "Bob" }, { age: 35 })] returns Bob at 30
    and stores Bob at 35. *)
Example findOneAndUpdate_bob :
  RedisModel.findOneAndUpdate (rt := runtime (users "id")) UserModel
    [("name", VString "Bob")] {[ "age" := VNumber (of_Z 35) ]} no_options
    (world_of "id")
  = (Ok (Some (bob "id")),
     Redis.set_redis (insert "User:2" (stringify (bob35 "id")))
       (world_of "id")).
Proof. vm_compute. reflexivity. Qed.

(** A text under the prefix that is not JSON makes the scan throw: [find]
    has a result only on a collection that decodes. *)
Example find_throws_on_malformed_entry :
  (QueryBuilder.exec (rt := runtime (users "_id"))
     (Model.find (rt := runtime (users "_id")) Users [])
     (Redis.set_redis (insert "User:4" "{name:") (world_of "_id"))).1
  = Throw SyntaxError.
Proof. vm_compute. reflexivity. Qed.

End Scenario.

(** [.limit(1).sort({ age: -1 }).skip(1)] on the users. *)
Lemma exec_sort_skip_limit_any_order_witness :
  let R := Fixture.runtime (Fixture.users "_id") in
  let S := [("age", of_Z (-1))] in
  let calls :=
    [QueryBuilder.Limit (of_Z 1); QueryBuilder.Sort S;
     QueryBuilder.Skip (of_Z 1)] in
  calls ≡ₚ [QueryBuilder.Sort S; QueryBuilder.Skip (of_Z 1);
            QueryBuilder.Limit (of_Z 1)] ∧
  (QueryBuilder.exec
     (QueryBuilder.chain
        (QueryBuilder.new (Model.fetcher Fixture.Users [])) calls)
     (Fixture.world_of "_id")).1 = Ok [Fixture.bob "_id"].
Proof.
  intros R S calls.
  assert (calls ≡ₚ [QueryBuilder.Sort S; QueryBuilder.Skip (of_Z 1);
                    QueryBuilder.Limit (of_Z 1)]) as Hperm.
  { unfold calls. etrans; [apply perm_swap|]. apply perm_skip, perm_swap. }
  split; [exact Hperm|].
  rewrite (exec_sort_skip_limit_any_order
             (Model.fetcher Fixture.Users []) S (of_Z 1) (of_Z 1) calls Hperm).
  vm_compute. reflexivity.
Defined.

(** [find({ age: { $gte: 30 } }).exec()] on the users. *)
Lemma find_returns_the_matching_documents_witness :
  let R := Fixture.runtime (Fixture.users "_id") in
  let Q := [("age", VObject {[ "$gte" := VNumber (of_Z 30) ]})] in
  decodable "User:" (Fixture.world_of "_id") ∧
  ∃ found,
    QueryBuilder.exec (Model.find Fixture.Users Q) (Fixture.world_of "_id")
      = (Ok found, Fixture.world_of "_id") ∧
    ∀ D, D ∈ found ↔
         stored "User:" (Fixture.world_of "_id") D ∧
         Model._matchesQuery D Q = true.
Proof.
  intros R Q. split; [exact Scenario.users_decodable|].
  exact (proj1 (find_returns_the_matching_documents Fixture.Users Q
                  (Fixture.world_of "_id") Scenario.users_decodable)).
Defined.

(** The scenario of §8: [findOneAndUpdate({ name: "Bob" }, { age: 35 },
    { returnNew: false })]. *)
Lemma findOneAndUpdate_returns_old_or_new_witness :
  let R := Fixture.runtime (Fixture.users "id") in
  let Q := [("name", VString "Bob")] in
  let P : object := {[ "age" := VNumber (of_Z 35) ]} in
  let w := Fixture.world_of "id" in
  client w = true ∧
  decodable "User:" w ∧
  well_typed Q ∧
  (∃ D, stored "User:" w D ∧ RedisModel._matches D Q = Ok true) ∧
  ∃ key raw doc,
    redis w !! key = Some raw ∧ JSON_parse raw = Some doc ∧
    RedisModel.findOneAndUpdate Fixture.UserModel Q P
      {| returnNew := Some false |} w =
      (Ok (Some doc),
       Redis.set_redis
         (insert key (JSON_stringify (Object_assign doc P))) w).
Proof.
  intros R Q P w.
  assert (decodable "User:" w) as Hdec
    by exact (well_keyed_decodable _ _ Scenario.users_well_keyed).
  assert (well_typed Q) as Htyped.
  { intros field ops [=]%list_elem_of_singleton. }
  assert (∃ D, stored "User:" w D ∧ RedisModel._matches D Q = Ok true)
    as Hmatch.
  { exists (Fixture.bob "id"). split; [|vm_compute; reflexivity].
    exists "User:2", (Fixture.stringify (Fixture.bob "id")).
    repeat split; try (vm_compute; reflexivity). discriminate. }
  split; [reflexivity|]. split; [exact Hdec|].
  split; [exact Htyped|]. split; [exact Hmatch|].
  destruct (findOneAndUpdate_returns_old_or_new Fixture.UserModel Q P
              {| returnNew := Some false |} w eq_refl Hdec Htyped Hmatch)
    as (key & raw & doc & _ & Hget & Hdoc & _ & _ & Hrun & Hkeyed & _).
  destruct (Hkeyed Scenario.users_well_keyed) as [Hid Hkey].
  exists key, raw, doc. split; [exact Hget|]. split; [exact Hdoc|].
  rewrite Hid, Hkey in Hrun. exact Hrun.
Defined.

(** The document that [create({ id: "", name: "Bob" })] stores matches
    [{ name: "Bob" }], and [findOneAndUpdate({ name: "Bob" }, { age: 35 })]
    returns [null] and leaves the entry as it is. *)
Lemma findOneAndUpdate_skips_a_match_with_empty_id :
  let doc : object := {[ "id" := VString ""; "name" := VString "Bob" ]} in
  let R := Fixture.runtime [doc] in
  let Q := [("name", VString "Bob")] in
  let P : object := {[ "age" := VNumber (of_Z 35) ]} in
  let w0 := {| redis := ∅; client := true; uuid_calls := 0 |} in
  let w := (RedisModel.create Fixture.UserModel doc w0).2 in
  RedisModel.create Fixture.UserModel doc w0 = (Ok doc, w) ∧
  stored "User:" w doc ∧
  RedisModel._matches doc Q = Ok true ∧
  RedisModel.findOneAndUpdate Fixture.UserModel Q P no_options w
    = (Ok None, w).
Proof.
  intros doc R Q P w0 w. split; [by vm_compute|]. split; [|split].
  - exists "User:", (Fixture.stringify doc).
    split; [by vm_compute|]. split; [by vm_compute|].
    split; [discriminate|by vm_compute].
  - by vm_compute.
  - by vm_compute.
Qed.


(** [update("2", {})] leaves Bob as he is. *)
Lemma update_empty_partial_keeps_document_witness :
  let R := Fixture.runtime (Fixture.users "_id") in
  let w := Fixture.world_of "_id" in
  let raw := Fixture.stringify (Fixture.bob "_id") in
  redis w !! Model._key Fixture.Users "2" = Some raw ∧
  JSON_parse raw = Some (Fixture.bob "_id") ∧
  JSON_parse (JSON_stringify (Fixture.bob "_id"))
    = Some (Fixture.bob "_id") ∧
  JSON_parse "" = None ∧
  ∃ w',
    Model.update Fixture.Users "2" ∅ w = (Ok (Some (Fixture.bob "_id")), w') ∧
    Model.findById Fixture.Users "2" w' = (Ok (Some (Fixture.bob "_id")), w').
Proof.
  intros R w raw.
  assert (redis w !! Model._key Fixture.Users "2" = Some raw) as Hget
    by (vm_compute; reflexivity).
  assert (JSON_parse raw = Some (Fixture.bob "_id")) as Hdoc
    by (vm_compute; reflexivity).
  assert (JSON_parse (JSON_stringify (Fixture.bob "_id"))
          = Some (Fixture.bob "_id")) as Hround by (vm_compute; reflexivity).
  assert (JSON_parse "" = None) as Hempty by (vm_compute; reflexivity).
  split; [exact Hget|]. split; [exact Hdoc|]. split; [exact Hround|].
  split; [exact Hempty|].
  destruct (update_empty_partial_keeps_document Fixture.Users "2" w raw
              (Fixture.bob "_id") Hget Hdoc Hround Hempty)
    as (w' & Hrun & _ & Hafter & _).
  exists w'. split; [exact Hrun | exact Hafter].
Defined.

(** [findOne({ age: { $gte: 30 } })] on the users returns Charlie, the head
    of what [find] returns. *)
Lemma findOne_is_the_head_of_find_witness :
  let R := Fixture.runtime (Fixture.users "id") in
  let Q := [("age", VObject {[ "$gte" := VNumber (of_Z 30) ]})] in
  let w := Fixture.world_of "id" in
  let found := [Fixture.user "id" "3" "Charlie" 40; Fixture.bob "id"] in
  RedisModel.find Fixture.UserModel Q w = (Ok found, w) ∧
  RedisModel.findOne Fixture.UserModel Q w
    = (Ok (Some (Fixture.user "id" "3" "Charlie" 40)), w).
Proof.
  intros R Q w found.
  assert (RedisModel.find Fixture.UserModel Q w = (Ok found, w)) as Hfind
    by (vm_compute; reflexivity).
  split; [exact Hfind|].
  exact (proj2 (proj1 (proj2 findOne_is_the_head_of_find) Fixture.UserModel
                  Q w w found Hfind)).
Defined.

(** * Further properties of the code *)

(** ** The connection, and the methods that share a scan *)

Section ClientFacts.
Context {rt : Runtime}.

(** Property X1.
    Before [connectRedis], every method of [RedisModel] and of the model of
    src/redis-orm.ts throws "Redis client not initialized" and leaves the
    keyspace and the identifier generator as they are; [connectRedis]
    installs the client and touches no key. *)
Theorem methods_require_connectRedis
    (this : RedisModel.t) (basic : RedisModelBasic.t) (Q : query)
    (doc P : object) (id : string) (opts : options) (w : world) :
  client w = false →
  (RedisModel.create this doc w = (Throw ClientNotInitialized, w) ∧
   RedisModel.find this Q w = (Throw ClientNotInitialized, w) ∧
   RedisModel.findOne this Q w = (Throw ClientNotInitialized, w) ∧
   RedisModel.findById this id w = (Throw ClientNotInitialized, w) ∧
   RedisModel.updateMany this Q P w = (Throw ClientNotInitialized, w) ∧
   RedisModel.updateOne this Q P w = (Throw ClientNotInitialized, w) ∧
   RedisModel.findOneAndUpdate this Q P opts w
     = (Throw ClientNotInitialized, w) ∧
   RedisModel.deleteMany this Q w = (Throw ClientNotInitialized, w) ∧
   RedisModel.deleteOne this Q w = (Throw ClientNotInitialized, w) ∧
   RedisModel.findOneAndDelete this Q w = (Throw ClientNotInitialized, w) ∧
   RedisModel.countDocuments this Q w = (Throw ClientNotInitialized, w)) ∧
  (RedisModelBasic.create basic doc w = (Throw ClientNotInitialized, w) ∧
   RedisModelBasic.find basic Q w = (Throw ClientNotInitialized, w) ∧
   RedisModelBasic.findById basic id w = (Throw ClientNotInitialized, w) ∧
   RedisModelBasic.deleteMany basic Q w = (Throw ClientNotInitialized, w) ∧
   RedisModelBasic.updateMany basic Q P w = (Throw ClientNotInitialized, w) ∧
   RedisModelBasic.countDocuments basic Q w
     = (Throw ClientNotInitialized, w)) ∧
  ∃ w', Redis.connectRedis w = (Ok tt, w') ∧
        Redis.getRedisClient w' = (Ok tt, w') ∧ redis w' = redis w.
Proof.
  intros Hclient.
  assert (Redis.getRedisClient w = (Throw ClientNotInitialized, w)) as Hget.
  { unfold Redis.getRedisClient. by rewrite Hclient. }
  assert (RedisModel.find this Q w = (Throw ClientNotInitialized, w)) as Hfind.
  { unfold RedisModel.find. unfold bind at 1. by rewrite Hget. }
  assert (RedisModel.findOne this Q w = (Throw ClientNotInitialized, w))
    as Hone.
  { unfold RedisModel.findOne. unfold bind at 1. by rewrite Hget. }
  assert (RedisModelBasic.find basic Q w = (Throw ClientNotInitialized, w))
    as Hbasic.
  { unfold RedisModelBasic.find. unfold bind at 1. by rewrite Hget. }
  split; [|split].
  - repeat split; try done.
    + unfold RedisModel.create. unfold bind at 1. by rewrite Hget.
    + unfold RedisModel.findById. unfold bind at 1. by rewrite Hget.
    + unfold RedisModel.updateMany. unfold bind at 1. by rewrite Hfind.
    + unfold RedisModel.updateOne. unfold bind at 1. by rewrite Hone.
    + unfold RedisModel.findOneAndUpdate. unfold bind at 1. by rewrite Hone.
    + unfold RedisModel.deleteMany. unfold bind at 1. by rewrite Hfind.
    + unfold RedisModel.deleteOne. unfold bind at 1. by rewrite Hone.
    + unfold RedisModel.findOneAndDelete. unfold bind at 1. by rewrite Hone.
    + unfold RedisModel.countDocuments. unfold bind at 1. by rewrite Hfind.
  - repeat split; try done.
    + unfold RedisModelBasic.create. unfold bind at 1. by rewrite Hget.
    + unfold RedisModelBasic.findById. unfold bind at 1. by rewrite Hget.
    + unfold RedisModelBasic.deleteMany. unfold bind at 1. by rewrite Hbasic.
    + unfold RedisModelBasic.updateMany. unfold bind at 1. by rewrite Hbasic.
    + unfold RedisModelBasic.countDocuments. unfold bind at 1.
      by rewrite Hbasic.
  - by eexists.
Qed.

(** Property X2.
    [updateOne(Q, P)] is [findOneAndUpdate(Q, P, { returnNew: true })]:
    the same result, the same write, the same errors. *)
Theorem updateOne_is_findOneAndUpdate_returnNew
    (this : RedisModel.t) (Q : query) (P : object) (w : world) :
  RedisModel.updateOne this Q P w =
  RedisModel.findOneAndUpdate this Q P {| returnNew := Some true |} w.
Proof.
  unfold RedisModel.updateOne, RedisModel.findOneAndUpdate, bind.
  destruct (RedisModel.findOne this Q w) as [[[doc|]|e] w1]; try done.
Qed.

(** Property X3.
    [deleteOne(Q)] does what [findOneAndDelete(Q)] does and returns 1 where
    the latter returns a document, 0 where it returns [null]. *)
Theorem deleteOne_counts_findOneAndDelete
    (this : RedisModel.t) (Q : query) (w : world) :
  RedisModel.deleteOne this Q w =
  ((outcome_map (λ deleted : option object, if deleted is Some _ then 1 else 0)
      (RedisModel.findOneAndDelete this Q w).1),
   (RedisModel.findOneAndDelete this Q w).2).
Proof.
  unfold RedisModel.deleteOne, RedisModel.findOneAndDelete, bind.
  destruct (RedisModel.findOne this Q w) as [[[doc|]|e] w1]; try done.
  destruct (negb _); [done|]. simpl.
  by destruct (Redis.getRedisClient w1) as [[[]|e] w2].
Qed.

End ClientFacts.

Lemma methods_require_connectRedis_witness :
  let R := Fixture.runtime [] in
  let w := {| redis := Fixture.keyspace "id"; client := false;
              uuid_calls := 0 |} in
  client w = false ∧
  RedisModel.find Fixture.UserModel [] w = (Throw ClientNotInitialized, w).
Proof.
  intros R w. split; [reflexivity|].
  exact (proj1 (proj2 (proj1 (methods_require_connectRedis Fixture.UserModel
                         (RedisModelBasic.Build "User") [] ∅ ∅ "1"
                         no_options w eq_refl)))).
Defined.

(** ** Keys, single entries, and create *)

Section EntryFacts.
Context {rt : Runtime}.

(** Two identifiers give two keys. *)
Lemma append_inj (prefix a b : string) :
  prefix +:+ a = prefix +:+ b → a = b.
Proof.
  induction prefix as [|c prefix IH]; simpl; [done|].
  intros [= ?]. by apply IH.
Qed.

Lemma Model_key_inj this id id' :
  Model._key this id = Model._key this id' → id = id'.
Proof.
  unfold Model._key. intros H%append_inj. by apply (append_inj ":").
Qed.

Lemma set_redis_delete_twice key w :
  Redis.set_redis (delete key) (Redis.set_redis (delete key) w) =
  Redis.set_redis (delete key) w.
Proof.
  unfold Redis.set_redis. simpl. f_equal.
  apply map_eq. intros k. destruct (decide (k = key)) as [->|?].
  - by rewrite !lookup_delete_eq.
  - by rewrite !lookup_delete_ne.
Qed.

(** Property X4.
    [Model.delete(id)] returns 1 when the key of [id] held an entry and 0
    when it did not; afterwards [findById(id)] returns [null] and a second
    [delete(id)] returns 0, and [findById] of any other identifier returns
    what it returned before. *)
Theorem Model_delete_removes_one_entry
    (this : Model.t) (id : string) (w : world) :
  ∃ w',
    Model.delete this id w =
      (Ok (if redis w !! Model._key this id is Some _ then 1 else 0), w') ∧
    Model.findById this id w' = (Ok None, w') ∧
    Model.delete this id w' = (Ok 0, w') ∧
    (∀ key, key ≠ Model._key this id → redis w' !! key = redis w !! key) ∧
    (∀ id', id' ≠ id →
       Model.findById this id' w' = ((Model.findById this id' w).1, w')).
Proof.
  exists (Redis.set_redis (delete (Model._key this id)) w).
  split; [done|]. split; [|split; [|split]].
  - unfold Model.findById, bind, Redis.get. simpl.
    by rewrite lookup_delete_eq.
  - unfold Model.delete, Redis.del. rewrite set_redis_delete_twice.
    simpl. by rewrite lookup_delete_eq.
  - intros key Hkey. simpl. by rewrite lookup_delete_ne.
  - intros id' Hid. unfold Model.findById, bind, Redis.get, parse. simpl.
    rewrite lookup_delete_ne by (intros ?%Model_key_inj; congruence).
    destruct (Redis.falsy _); [done|].
    by destruct (JSON_parse _).
Qed.

(** Property X5.
    [Model.update] neither adds a key nor removes one, and it leaves the
    entries of the other keys as they are; on an entry whose text does not
    decode it throws the [SyntaxError] of [JSON.parse] and writes
    nothing. *)
Theorem Model_update_keeps_the_keys
    (this : Model.t) (id : string) (data : object) (w : world) :
  let w' := (Model.update this id data w).2 in
  dom (redis w') = dom (redis w) ∧
  (∀ key, key ≠ Model._key this id → redis w' !! key = redis w !! key) ∧
  (∀ raw, redis w !! Model._key this id = Some raw → raw ≠ "" →
          JSON_parse raw = None →
          Model.update this id data w = (Throw SyntaxError, w)) ∧
  client w' = client w ∧ uuid_calls w' = uuid_calls w.
Proof.
  unfold Model.update, bind, Redis.get, parse. simpl.
  destruct (redis w !! Model._key this id) as [raw|] eqn:Hget; simpl;
    [|by repeat split].
  destruct (String.eqb_spec raw "") as [->|Hne]; simpl.
  { repeat split; try done. by intros raw' [= <-]. }
  destruct (JSON_parse raw) as [doc|] eqn:Hparse; simpl;
    [|by repeat split].
  repeat split; try done.
  - by apply dom_insert_lookup_L.
  - intros key Hkey. by rewrite lookup_insert_ne.
  - intros raw' [= <-]. congruence.
Qed.

(** Property X6.
    [Model.create(data)] returns and stores, under the key of a fresh
    identifier, a document with exactly [_id] and the fields of the schema:
    a field of the schema has the value that [data] gives or [null], a field
    of [data] that the schema does not declare is dropped. It writes no
    other key and takes one identifier from [uuidv4]. *)
Theorem Model_create_document
    (this : Model.t) (data : object) (w : world) :
  let id := uuid_of_call (uuid_calls w) in
  ∃ doc,
    Model.create this data w =
      (Ok doc,
       {| redis := <[Model._key this id := JSON_stringify doc]> (redis w);
          client := client w; uuid_calls := S (uuid_calls w) |}) ∧
    (∀ field, field ∈ Model.schema this →
       doc !! field = Some (JS.nullish (get data field) VNull)) ∧
    (∀ field, field ∉ Model.schema this →
       doc !! field = if decide (field = "_id") then Some (VString id)
                      else None).
Proof.
  intros id. eexists. split; [|split].
  - unfold Model.create, bind, uuidv4, Redis.set, ret. reflexivity.
  - intros field Hin. by apply schema_fill_sets.
  - intros field Hnot. rewrite schema_fill_keeps by done.
    destruct (decide (field = "_id")) as [->|?].
    + by rewrite lookup_singleton_eq.
    + by rewrite lookup_singleton_ne.
Qed.

(** Property X7.
    What [Model.create] returns is what [findById] of the new identifier
    returns afterwards, when the codec round-trips the document. *)
Theorem Model_create_then_findById
    (this : Model.t) (data doc : object) (w w' : world) :
  Model.create this data w = (Ok doc, w') →
  JSON_parse (JSON_stringify doc) = Some doc →
  JSON_parse "" = None →
  Model.findById this (uuid_of_call (uuid_calls w)) w' = (Ok (Some doc), w').
Proof.
  intros Hcreate Hround Hempty.
  assert (JSON_stringify doc ≠ "") as Hne by (intros Heq; congruence).
  unfold Model.create, bind, uuidv4, Redis.set, ret in Hcreate.
  injection Hcreate as Hdoc <-. 
  unfold Model.findById, bind, Redis.get, parse. cbn [redis Redis.set_redis].
  rewrite Hdoc, lookup_insert_eq, falsy_text by done. simpl.
  by rewrite Hround.
Qed.

End EntryFacts.

Lemma Model_create_then_findById_witness :
  let data : object := {[ "name" := VString "Dana"; "role" := VString "x" ]} in
  let doc : object :=
    {[ "_id" := VString "uuid-0"; "name" := VString "Dana"; "age" := VNull ]} in
  let R := Fixture.runtime [doc] in
  let w := Fixture.world_of "_id" in
  let w' := (Model.create Fixture.Users data w).2 in
  Model.create Fixture.Users data w = (Ok doc, w') ∧
  Model.findById Fixture.Users "uuid-0" w' = (Ok (Some doc), w').
Proof.
  intros data doc R w w'.
  assert (Model.create Fixture.Users data w = (Ok doc, w')) as Hcreate
    by (vm_compute; reflexivity).
  split; [exact Hcreate|].
  apply (Model_create_then_findById (rt := R) Fixture.Users data doc w w'
           Hcreate); vm_compute; reflexivity.
Defined.

(** ** create of the schema-less variants *)

Section SchemalessCreateFacts.
Context {rt : Runtime}.

(** Property X8.
    With the client connected, [RedisModel.create(doc)] on a document whose
    [id], when present, is a string returns and stores [doc] with a string
    [id]: the one [doc] has, with no call of [uuidv4], or else the next
    identifier of [uuidv4]. Every other field is as in [doc], and the only
    key written is the key of that [id]. *)
Theorem RedisModel_create_document
    (this : RedisModel.t) (doc : object) (w : world) :
  client w = true →
  (∀ v, doc !! "id" = Some v → ∃ s, v = VString s) →
  ∃ newDoc id,
    RedisModel.create this doc w =
      (Ok newDoc,
       {| redis := <[RedisModel.getKey this (VString id) :=
                       JSON_stringify newDoc]> (redis w);
          client := true;
          uuid_calls := if doc !! "id" is Some _ then uuid_calls w
                        else S (uuid_calls w) |}) ∧
    newDoc = <["id" := VString id]> doc ∧
    id = match doc !! "id" with
         | Some (VString s) => s
         | _ => uuid_of_call (uuid_calls w)
         end.
Proof.
  intros Hclient Hstr. unfold RedisModel.create.
  unfold bind at 1, Redis.getRedisClient. rewrite Hclient.
  unfold get. destruct (doc !! "id") as [v|] eqn:Hid; simpl.
  - destruct (Hstr v eq_refl) as [s ->]. exists (<["id" := VString s]> doc), s.
    split; [|done]. unfold bind, ret, Redis.set, Redis.set_redis. simpl.
    by rewrite Hclient.
  - do 2 eexists. split; [|done].
    unfold bind, ret, uuidv4, Redis.set, Redis.set_redis. simpl.
    by rewrite Hclient.
Qed.

Lemma RedisModel_findById_after_set this id text doc w :
  client w = true → JSON_parse text = Some doc → text ≠ "" →
  let w' := Redis.set_redis
              (insert (RedisModel.getKey this (VString id)) text) w in
  RedisModel.findById this id w' = (Ok (Some doc), w').
Proof.
  intros Hclient Hparse Hne.
  unfold RedisModel.findById, bind, Redis.getRedisClient, Redis.get, parse.
  unfold Redis.set_redis. simpl. rewrite Hclient. simpl.
  rewrite lookup_insert_eq, falsy_text by done. simpl. by rewrite Hparse.
Qed.

(** Property X9.
    What [RedisModel.create] returns is what [findById] of its [id]
    returns afterwards, when the codec round-trips the document. *)
Theorem RedisModel_create_then_findById
    (this : RedisModel.t) (doc newDoc : object) (id : string)
    (w w' : world) :
  RedisModel.create this doc w = (Ok newDoc, w') →
  newDoc !! "id" = Some (VString id) →
  JSON_parse (JSON_stringify newDoc) = Some newDoc →
  JSON_parse "" = None →
  RedisModel.findById this id w' = (Ok (Some newDoc), w').
Proof.
  intros Hcreate Hid Hround Hempty.
  assert (JSON_stringify newDoc ≠ "") as Hne by (intros Heq; congruence).
  unfold RedisModel.create in Hcreate.
  unfold bind at 1, Redis.getRedisClient in Hcreate.
  destruct (client w) eqn:Hclient; [|done].
  assert (∀ v w1,
            client w1 = true →
            (do _ <- Redis.set (RedisModel.getKey this v)
                         (JSON_stringify (<["id" := v]> doc));
             ret (<["id" := v]> doc)) w1
            = (Ok newDoc, w') →
            RedisModel.findById this id w' = (Ok (Some newDoc), w'))
    as Hstored.
  { intros v w1 Hclient1. unfold bind, ret, Redis.set. intros [= Hdoc <-].
    assert (v = VString id) as ->.
    { rewrite <- Hdoc, lookup_insert_eq in Hid. congruence. }
    rewrite Hdoc. by apply RedisModel_findById_after_set. }
  destruct (get doc "id") eqn:Hget;
    try (by apply (Hstored _ w Hclient Hcreate));
    unfold bind at 1 in Hcreate; unfold bind at 1, uuidv4, ret in Hcreate;
    by apply Hstored in Hcreate.
Qed.

(** Property X10.
    [create] does not look at what the key holds: a second [create] with
    the [id] of the first replaces its entry, and the keyspace is the one
    that the second [create] alone gives. *)
Theorem RedisModel_create_overwrites
    (this : RedisModel.t) (first second : object) (id : string) (w : world) :
  client w = true →
  first !! "id" = Some (VString id) →
  second !! "id" = Some (VString id) →
  (do _ <- RedisModel.create this first; RedisModel.create this second) w =
  RedisModel.create this second w.
Proof.
  intros Hclient H1 H2. unfold bind at 1.
  rewrite (RedisModel_create_given_id this first w (VString id)) by done.
  rewrite !(RedisModel_create_given_id this second _ (VString id)) by done.
  f_equal. unfold Redis.set_redis. simpl. f_equal.
  apply insert_insert_eq.
Qed.

(** Property X11.
    The [create] of src/redis-orm.ts ([doc.id || uuidv4()]) and that of
    [RedisModel] ([doc.id ?? uuidv4()]) do the same on every document whose
    [id] is absent, [null] or truthy; they part on the falsy ids that are
    not nullish, such as the empty string. *)
Theorem create_variants_agree
    (modelName : string) (doc : object) (w : world) :
  JS.ToBoolean (get doc "id") = true ∨ get doc "id" = VUndefined ∨
  get doc "id" = VNull →
  RedisModelBasic.create (RedisModelBasic.Build modelName) doc w =
  RedisModel.create (RedisModel.Build modelName) doc w.
Proof.
  unfold RedisModelBasic.create, RedisModel.create.
  unfold RedisModelBasic.getKey, RedisModel.getKey. simpl.
  intros [Htrue | [-> | ->]]; [|done..].
  rewrite Htrue. by destruct (get doc "id").
Qed.

End SchemalessCreateFacts.

Lemma RedisModel_create_document_witness :
  let R := Fixture.runtime [] in
  let doc : object := {[ "name" := VString "Dana" ]} in
  client (Fixture.world_of "id") = true ∧
  ∃ newDoc id,
    RedisModel.create Fixture.UserModel doc (Fixture.world_of "id") =
      (Ok newDoc,
       {| redis := <[RedisModel.getKey Fixture.UserModel (VString id) :=
                       JSON_stringify newDoc]> (Fixture.keyspace "id");
          client := true; uuid_calls := 1 |}) ∧
    newDoc = <["id" := VString id]> doc ∧ id = "uuid-0".
Proof.
  intros R doc. split; [reflexivity|].
  apply (RedisModel_create_document (rt := R) Fixture.UserModel doc
           (Fixture.world_of "id") eq_refl).
  intros v Hv. vm_compute in Hv. discriminate Hv.
Defined.

Lemma RedisModel_create_then_findById_witness :
  let doc : object := {[ "name" := VString "Dana" ]} in
  let newDoc : object := <["id" := VString "uuid-0"]> doc in
  let R := Fixture.runtime [newDoc] in
  let w := Fixture.world_of "id" in
  let w' := (RedisModel.create Fixture.UserModel doc w).2 in
  RedisModel.create Fixture.UserModel doc w = (Ok newDoc, w') ∧
  RedisModel.findById Fixture.UserModel "uuid-0" w' = (Ok (Some newDoc), w').
Proof.
  intros doc newDoc R w w'.
  assert (RedisModel.create Fixture.UserModel doc w = (Ok newDoc, w'))
    as Hcreate by (vm_compute; reflexivity).
  split; [exact Hcreate|].
  apply (RedisModel_create_then_findById (rt := R) Fixture.UserModel doc
           newDoc "uuid-0" w w' Hcreate); vm_compute; reflexivity.
Defined.

Lemma RedisModel_create_overwrites_witness :
  let R := Fixture.runtime [] in
  let w := Fixture.world_of "id" in
  (do _ <- RedisModel.create Fixture.UserModel (Fixture.bob "id");
   RedisModel.create Fixture.UserModel (Fixture.bob35 "id")) w =
  RedisModel.create Fixture.UserModel (Fixture.bob35 "id") w.
Proof.
  intros R w.
  apply (RedisModel_create_overwrites (rt := R) Fixture.UserModel
           (Fixture.bob "id") (Fixture.bob35 "id") "2" w);
    vm_compute; reflexivity.
Defined.

Lemma create_variants_agree_witness :
  let R := Fixture.runtime [] in
  let w := Fixture.world_of "id" in
  RedisModelBasic.create (RedisModelBasic.Build "User") (Fixture.bob "id") w =
  RedisModel.create (RedisModel.Build "User") (Fixture.bob "id") w.
Proof.
  intros R w.
  apply (create_variants_agree (rt := R) "User" (Fixture.bob "id") w).
  left. vm_compute. reflexivity.
Defined.

(** ** Conditions at the edge of the declared types *)

Section ConditionFacts.
Context {rt : Runtime}.

Lemma strict_equal_array_r x xs : JS.strict_equal x (VArray xs) = false.
Proof. by destruct x. Qed.

(** Property X12.
    A condition that is an array literal is compared with [===], and no
    decoded value is the array of the caller: [Model._matchesQuery] and
    [RedisModel._matches] reject every document, also one whose field holds
    an array with the same elements. *)
Theorem array_condition_matches_nothing
    (doc : object) (field : string) (xs : list value) (rest : query) :
  Model._matchesQuery doc ((field, VArray xs) :: rest) = false ∧
  RedisModel._matches doc ((field, VArray xs) :: rest) = Ok false.
Proof.
  split; simpl; by rewrite strict_equal_array_r.
Qed.

(** Property X13.
    An [$in] whose operand is neither an array nor [undefined]:
    [Model._matchesQuery] rejects the document; [RedisModel._matches] calls
    [operand.includes], which is the substring test when the operand is a
    string and a [TypeError] otherwise. *)
Theorem in_operand_that_is_no_array
    (doc : object) (field : string) (operand : value) (rest : query) :
  (∀ xs, operand ≠ VArray xs) → operand ≠ VUndefined →
  let Q := (field, VObject {[ "$in" := operand ]}) :: rest in
  Model._matchesQuery doc Q = false ∧
  RedisModel._matches doc Q =
    match operand with
    | VString s =>
        if JS.String_includes s (JS.ToString (get doc field))
        then RedisModel._matches doc rest else Ok false
    | _ => Throw TypeError
    end.
Proof.
  intros Harray Hdef Q. split.
  - apply matchesQuery_rejects with (entry := (field, VObject {[ "$in" := operand ]})).
    { by apply elem_of_cons; left. }
    apply matches_field_rejects with (op := "$in") (operand := operand).
    { by rewrite lookup_singleton_eq. }
    unfold Model.switch_op. simpl. destruct operand; try done.
    by destruct (Harray xs).
  - unfold Q. simpl. unfold RedisModel.check_operators.
    assert (∀ k, k ≠ "$in" → Object_prototype k = None →
              get ({[ "$in" := operand ]} : object) k = VUndefined) as Hk.
    { intros k ? Hk. unfold get. by rewrite lookup_singleton_ne, Hk. }
    rewrite !Hk by done.
    assert (get ({[ "$in" := operand ]} : object) "$in" = operand) as ->.
    { unfold get. by rewrite lookup_singleton_eq. }
    rewrite (defined_true operand) by done. simpl.
    destruct operand; simpl; try done.
    + by destruct (JS.String_includes _ _).
    + by destruct (Harray xs).
Qed.

(** The [find] of src/redis-orm.ts depends on the query through the
    inner loop only. *)
Lemma basic_find_ext this (Q Q' : query) w :
  (∀ doc, RedisModelBasic.match_loop doc Q true
          = RedisModelBasic.match_loop doc Q' true) →
  RedisModelBasic.find this Q w = RedisModelBasic.find this Q' w.
Proof.
  intros Hloop. unfold RedisModelBasic.find, bind, Redis.getRedisClient.
  destruct (client w); [|done]. unfold Redis.keys.
  generalize (@nil object) as results.
  induction (List.filter _ _) as [|key keys IH]; intros results; [done|].
  simpl. unfold bind, Redis.get, parse, lift.
  destruct (Redis.falsy _); [apply IH|].
  destruct (JSON_parse _) as [doc|]; simpl; [|done].
  rewrite Hloop.
  destruct (RedisModelBasic.match_loop _ _ _) as [[]|]; simpl;
    [apply IH..|done].
Qed.

(** Property X14.
    The [find] of src/redis-orm.ts knows [$gt], [$lt] and [$in] only, and
    takes an array for an operator object: a condition that is an array, or
    an object without these three operators (such as [{ $ne: x }] or
    [{ $gte: x }]), filters nothing. *)
Theorem RedisModelBasic_find_conditions_without_effect
    (this : RedisModelBasic.t) (field : string) (cond : value)
    (rest : query) (w : world) :
  (∃ xs, cond = VArray xs) ∨
  (∃ ops, cond = VObject ops ∧ ops !! "$gt" = None ∧ ops !! "$lt" = None ∧
          ops !! "$in" = None) →
  RedisModelBasic.find this ((field, cond) :: rest) w =
  RedisModelBasic.find this rest w.
Proof.
  intros Hcond. apply basic_find_ext. intros doc.
  destruct Hcond as [[xs ->]|(ops & -> & Hgt & Hlt & Hin)]; [done|].
  simpl. unfold get. by rewrite Hgt, Hlt, Hin.
Qed.

End ConditionFacts.

Lemma in_operand_that_is_no_array_witness :
  let R := Fixture.runtime [] in
  let Q := [("name", VObject {[ "$in" := VString "Bobby" ]})] in
  Model._matchesQuery (Fixture.bob "id") Q = false ∧
  RedisModel._matches (Fixture.bob "id") Q = Ok true.
Proof.
  intros R Q.
  apply (in_operand_that_is_no_array (rt := R) (Fixture.bob "id") "name"
           (VString "Bobby") []); done.
Defined.

Lemma RedisModelBasic_find_conditions_without_effect_witness :
  let R := Fixture.runtime (Fixture.users "id") in
  let this := RedisModelBasic.Build "User" in
  let w := Fixture.world_of "id" in
  RedisModelBasic.find this
    [("name", VObject {[ "$ne" := VString "Bob" ]})] w =
  RedisModelBasic.find this [] w.
Proof.
  intros R this w.
  apply (RedisModelBasic_find_conditions_without_effect (rt := R) this
           "name" (VObject {[ "$ne" := VString "Bob" ]}) [] w).
  right. eexists. split; [reflexivity|]. by vm_compute.
Defined.

(** ** The window of skip and limit, and the comparison function *)

Section WindowFacts.
Context {rt : Runtime}.
Import QueryBuilder.

(** [results.slice(k)] under the guard [k > 0] of [exec]. *)
Lemma skip_step_drop this (results : list object) zk :
  JS.ToIntegerOrInfinity (_skip this) = JS.Finite zk →
  skip_step this results = drop (Z.to_nat zk) results.
Proof.
  unfold skip_step, JS.Array_slice.
  destruct (_skip this) as [s|s| |s m e]; simpl; intros Hk.
  - injection Hk as <-. by destruct s.
  - by destruct s.
  - by injection Hk as <-.
  - injection Hk as <-. destruct s; simpl.
    + assert (- Z.shiftl (Z.pos m) e <= 0)%Z as Hneg.
      { pose proof (Z.shiftl_nonneg (Z.pos m) e). lia. }
      by rewrite Z2Nat.nonpos.
    + pose proof (proj2 (Z.shiftl_nonneg (Z.pos m) e)) as Hpos.
      set (z := Z.shiftl (Z.pos m) e) in *.
      assert (0 <= z)%Z as Hz by (apply Hpos; lia).
      destruct (z <? 0)%Z eqn:Hlt; [lia|].
      destruct (decide (z ≤ Z.of_nat (length results))%Z) as [Hle|Hgt].
      * rewrite Z.min_l by done. apply take_ge. rewrite length_drop. lia.
      * rewrite Z.min_r by lia. rewrite Nat2Z.id, Z.sub_diag. simpl.
        rewrite take_0. symmetry. apply drop_ge. lia.
Qed.

(** [results.slice(0, n)] *)
Lemma limit_step_take this (results : list object) n zn :
  _limit this = Some n →
  JS.ToIntegerOrInfinity n = JS.Finite zn →
  limit_step this results =
  take (Z.to_nat (if (zn <? 0)%Z then Z.of_nat (length results) + zn
                  else zn)) results.
Proof.
  unfold limit_step, JS.Array_slice. intros -> ->. simpl.
  rewrite (Z.min_l 0) by lia. rewrite Z.sub_0_r, drop_0.
  destruct (zn <? 0)%Z eqn:Hlt.
  - f_equal. lia.
  - destruct (decide (zn ≤ Z.of_nat (length results))%Z) as [Hle|Hgt].
    + by rewrite Z.min_l.
    + rewrite Z.min_r by lia. rewrite Nat2Z.id.
      rewrite !take_ge; [done|lia..].
Qed.

(** Property X15.
    [find(Q).skip(k).limit(n).exec()] with finite [k] and [n] returns a
    window of the fetched results: the first [k] documents are dropped
    (none when [k] is zero, negative or [NaN]), and of the rest the first
    [n] are kept; a negative [n] keeps all but the last [-n] instead, and
    [limit(0)] and [limit(NaN)] keep none. *)
Theorem exec_skip_limit_window
    (fetcher : M (list object)) (k n : number) (zk zn : Z) (w : world) :
  JS.ToIntegerOrInfinity k = JS.Finite zk →
  JS.ToIntegerOrInfinity n = JS.Finite zn →
  exec (limit n (skip k (new fetcher))) w =
  (outcome_map
     (λ results,
        let rest := drop (Z.to_nat zk) results in
        take (Z.to_nat (if (zn <? 0)%Z then Z.of_nat (length rest) + zn
                        else zn)) rest)
     (fetcher w).1,
   (fetcher w).2).
Proof.
  intros Hk Hn. unfold exec, bind, ret. simpl dataFetcher.
  destruct (fetcher w) as [[results|e] w']; [|done]. simpl outcome_map.
  cbn [fst snd]. f_equal. f_equal.
  rewrite (limit_step_take _ _ n zn) by done.
  by rewrite (skip_step_drop _ _ zk).
Qed.

(** The order of a string with itself, and of two strings taken both
    ways. *)
Lemma String_ltb_asym s t : String.ltb s t = true → String.ltb t s = false.
Proof.
  unfold String.ltb. rewrite (String.compare_antisym t s).
  by destruct (String.compare s t).
Qed.

Lemma SFcompare_antisym x y :
  SFcompare y x = CompOpp <$> SFcompare x y.
Proof.
  destruct x as [sx|sx| |sx mx ex], y as [sy|sy| |sy my ey]; simpl;
    try done; try (by destruct sx); try (by destruct sy);
    try (by destruct sx, sy).
  destruct sx, sy; simpl; try done.
  - rewrite (Z.compare_antisym ex ey).
    destruct (ex ?= ey)%Z; simpl; try done.
    by rewrite CompOpp_involutive, Pos.compare_cont_antisym.
  - rewrite (Z.compare_antisym ex ey).
    destruct (ex ?= ey)%Z; simpl; try done.
    by rewrite (Pos.compare_cont_antisym mx my Eq).
Qed.

Lemma lt_asym x y : JS.lt x y = true → JS.lt y x = false.
Proof.
  unfold JS.lt, JS.IsLessThan.
  assert (∀ m n, match (match SFcompare m n with
                        | Some Lt => Some true
                        | Some _ => Some false
                        | None => None
                        end) with Some true => true | _ => false end = true →
                 match (match SFcompare n m with
                        | Some Lt => Some true
                        | Some _ => Some false
                        | None => None
                        end) with Some true => true | _ => false end = false)
    as Hnum.
  { intros m n. rewrite (SFcompare_antisym m n).
    by destruct (SFcompare m n) as [[]|]. }
  destruct (JS.ToPrimitive x) as [| |bx|nx|sx|?|?|?],
    (JS.ToPrimitive y) as [| |by_|ny|sy|?|?|?]; try apply Hnum.
  destruct (String.ltb sx sy) eqn:Hlt; [|done].
  by rewrite (String_ltb_asym _ _ Hlt).
Qed.

(** Property X16.
    The comparison function that [exec] hands to [sort] is antisymmetric:
    with the directions [1] and [-1], [compare(b, a)] is negative where
    [compare(a, b)] is positive, positive where it is negative, and zero
    where it is zero. *)
Theorem comparator_antisymmetric (fields : sort_spec) (a b : object) :
  Forall (λ entry, entry.2 = of_Z 1 ∨ entry.2 = of_Z (-1)) fields →
  SFcompare (comparator fields b a) (S754_zero false) =
  CompOpp <$> SFcompare (comparator fields a b) (S754_zero false).
Proof.
  induction 1 as [|[key dir] fields Hdir _ IH]; [done|].
  simpl in Hdir. simpl. unfold JS.gt.
  fold (JS.lt (get a key) (get b key)). fold (JS.lt (get b key) (get a key)).
  destruct (JS.lt (get a key) (get b key)) eqn:Hab.
  - rewrite (lt_asym _ _ Hab). by destruct Hdir as [-> | ->]; vm_compute.
  - destruct (JS.lt (get b key) (get a key)); [|done].
    by destruct Hdir as [-> | ->]; vm_compute.
Qed.

(** Property X17.
    A document without the sort key, when the key is no member of
    [Object.prototype] either, is neither before nor after any other on
    that key: the comparison goes on with the next key. *)
Theorem comparator_skips_absent_key
    (key : string) (dir : number) (rest : sort_spec) (a b : object) :
  Object_prototype key = None →
  a !! key = None ∨ b !! key = None →
  comparator ((key, dir) :: rest) a b = comparator rest a b.
Proof.
  intros Hinherited Habsent. simpl.
  assert (JS.lt (get a key) (get b key) = false ∧
          JS.gt (get a key) (get b key) = false) as [-> ->]; [|done].
  unfold JS.lt, JS.gt.
  destruct Habsent as [Ha | Hb];
    [rewrite (get_absent a key Ha Hinherited)
    |rewrite (get_absent b key Hb Hinherited)];
    by rewrite IsLessThan_undefined_l, IsLessThan_undefined_r.
Qed.

End WindowFacts.

Lemma exec_skip_limit_window_witness :
  let R := Fixture.runtime (Fixture.users "_id") in
  let fetcher := Model.fetcher Fixture.Users [] in
  let w := Fixture.world_of "_id" in
  JS.ToIntegerOrInfinity (of_Z 1) = JS.Finite 1 ∧
  JS.ToIntegerOrInfinity (of_Z (-1)) = JS.Finite (-1) ∧
  QueryBuilder.exec
    (QueryBuilder.limit (of_Z (-1))
       (QueryBuilder.skip (of_Z 1) (QueryBuilder.new fetcher))) w =
  (outcome_map
     (λ results,
        let rest := drop (Z.to_nat 1) results in
        take (Z.to_nat (if (-1 <? 0)%Z then Z.of_nat (length rest) + -1
                        else -1)) rest)
     (fetcher w).1,
   (fetcher w).2).
Proof.
  intros R fetcher w.
  exact (conj eq_refl (conj eq_refl
    (exec_skip_limit_window (rt := R) fetcher (of_Z 1) (of_Z (-1)) 1 (-1) w
       eq_refl eq_refl))).
Defined.

Lemma comparator_antisymmetric_witness :
  let R := Fixture.runtime [] in
  let fields := [("age", of_Z (-1)); ("name", of_Z 1)] in
  SFcompare
    (QueryBuilder.comparator fields (Fixture.bob35 "_id") (Fixture.bob "_id"))
    (S754_zero false) =
  CompOpp <$>
    SFcompare
      (QueryBuilder.comparator fields (Fixture.bob "_id")
         (Fixture.bob35 "_id"))
      (S754_zero false).
Proof.
  intros R fields.
  apply (comparator_antisymmetric (rt := R) fields (Fixture.bob "_id")
           (Fixture.bob35 "_id")).
  constructor; [right; reflexivity|].
  constructor; [left; reflexivity|]. constructor.
Defined.

Lemma comparator_skips_absent_key_witness :
  let R := Fixture.runtime [] in
  let rest := [("name", of_Z 1)] in
  QueryBuilder.comparator (("email", of_Z 1) :: rest)
    (Fixture.bob "_id") (Fixture.bob35 "_id") =
  QueryBuilder.comparator rest (Fixture.bob "_id") (Fixture.bob35 "_id").
Proof.
  intros R rest.
  apply (comparator_skips_absent_key (rt := R) "email" (of_Z 1) rest
           (Fixture.bob "_id") (Fixture.bob35 "_id")).
  - vm_compute. reflexivity.
  - left. vm_compute. reflexivity.
Defined.

(** With the sort key [constructor], which every document inherits, a
    document that holds a string of its own under that name is ordered
    against the text of the function [Object] that the other inherits. *)
Example comparator_decides_on_an_inherited_key :
  let a : object := {[ "constructor" := VString "x" ]} in
  let b : object := {[ "name" := VString "Dora" ]} in
  b !! "constructor" = None ∧
  QueryBuilder.comparator (rt := Fixture.runtime [])
    [("constructor", of_Z 1)] a b = of_Z 1.
Proof. intros a b. split; by vm_compute. Qed.

(** ** The bulk operations of Model *)

Section BulkFacts.
Context {rt : Runtime}.

Lemma prefix_append (p s : string) : String.prefix p (p +:+ s) = true.
Proof.
  induction p as [|c p IH]; [by destruct s|].
  change (String.prefix (String c p) (String c (p +:+ s)) = true).
  simpl. by destruct (ascii_dec c c).
Qed.

Lemma append_assoc (a b c : string) : (a +:+ b) +:+ c = a +:+ b +:+ c.
Proof.
  induction a as [|x a IH]; [done|].
  change (String x ((a +:+ b) +:+ c) = String x (a +:+ b +:+ c)).
  by f_equal.
Qed.

Lemma Model_key_prefix this id :
  String.prefix (Model.name this +:+ ":") (Model._key this id) = true.
Proof. unfold Model._key. rewrite <- append_assoc. apply prefix_append. Qed.

(** The scan on keys of the collection whose texts decode: the selected
    documents, in the order of the keys. *)
Lemma fetch_loop_selected this Q keys results w :
  (∀ key, key ∈ keys → String.prefix (Model.name this +:+ ":") key = true) →
  (∀ key raw, key ∈ keys → redis w !! key = Some raw → raw ≠ "" →
              is_Some (JSON_parse raw)) →
  Model.fetch_loop Q keys results w =
    (Ok (results ++ omap (Model_selected this Q w) keys)%list, w).
Proof.
  revert results. induction keys as [|key keys IH]; intros results Hp Hdec.
  { simpl. by rewrite app_nil_r. }
  assert (∀ k, k ∈ keys →
            String.prefix (Model.name this +:+ ":") k = true) as Hp'.
  { intros ? Hin. apply Hp. by apply elem_of_cons; right. }
  assert (∀ k raw, k ∈ keys → redis w !! k = Some raw →
            raw ≠ "" → is_Some (JSON_parse raw)) as Hdec'.
  { intros ?? Hin. apply Hdec. by apply elem_of_cons; right. }
  cbn [Model.fetch_loop omap list_omap]. unfold bind at 1, Redis.get.
  unfold Model_selected at 1. rewrite Hp by (by apply elem_of_cons; left).
  destruct (redis w !! key) as [raw|] eqn:Hget; simpl; [|by apply IH].
  destruct (String.eqb_spec raw "") as [->|Hne]; simpl; [by apply IH|].
  destruct (Hdec key raw) as [doc Hdoc]; [by apply elem_of_cons; left|done..|].
  unfold bind, parse. rewrite Hdoc. simpl.
  destruct (Model._matchesQuery doc Q); [|by apply IH].
  rewrite IH by done. by rewrite <- app_assoc.
Qed.

(** [find(Q).exec()] on a collection whose entries decode. *)
Lemma exec_find_selected this Q w :
  decodable (Model.name this +:+ ":") w →
  ∃ keys,
    NoDup keys ∧
    (∀ key, key ∈ keys ↔
       String.prefix (Model.name this +:+ ":") key = true ∧
       is_Some (redis w !! key)) ∧
    QueryBuilder.exec (Model.find this Q) w =
      (Ok (omap (Model_selected this Q w) keys), w).
Proof.
  intros Hdec. rewrite exec_find. unfold Model.fetcher, bind.
  destruct (keys_spec (Model.name this +:+ ":") w) as (keys & Hkeys & Hmem).
  exists keys. split; [|split; [done|]].
  - unfold Redis.keys in Hkeys. injection Hkeys as <-.
    apply NoDup_ListNoDup, List.NoDup_filter, NoDup_ListNoDup.
    apply NoDup_fst_map_to_list.
  - rewrite Hkeys. rewrite (fetch_loop_selected this); [done|..].
    + by intros key [? _]%Hmem.
    + intros key raw [Hp _]%Hmem Hget Hne. by apply (Hdec key raw).
Qed.

(** The loops of [deleteMany] and [updateMany] do not fail; they count a
    turn per document. *)
Lemma Model_deleteMany_loop_spec this docs count w :
  Model.deleteMany_loop this docs count w =
    (Ok (count + length docs),
     Redis.set_redis
       (λ m, foldl (λ m doc, delete (Model.key_of this doc) m) m docs) w).
Proof.
  revert count w. induction docs as [|doc docs IH]; intros count w.
  { simpl. unfold ret, Redis.set_redis. rewrite Nat.add_0_r.
    by destruct w. }
  simpl. unfold bind, Redis.del. rewrite IH. f_equal. f_equal. lia.
Qed.

Lemma Model_updateMany_loop_spec this data docs count w :
  Model.updateMany_loop this data docs count w =
    (Ok (count + length docs),
     Redis.set_redis
       (λ m, foldl (λ m doc,
                      <[Model.key_of this doc :=
                          JSON_stringify (Object_assign doc data)]> m)
                   m docs) w).
Proof.
  revert count w. induction docs as [|doc docs IH]; intros count w.
  { simpl. unfold ret, Redis.set_redis. rewrite Nat.add_0_r.
    by destruct w. }
  simpl. unfold bind, Redis.set. rewrite IH. f_equal. f_equal. lia.
Qed.

Lemma lookup_foldl_delete {A} (key_of : A → string) (docs : list A)
    (m : gmap string string) key :
  foldl (λ m doc, delete (key_of doc) m) m docs !! key =
  if decide (key ∈ key_of <$> docs) then None else m !! key.
Proof.
  revert m. induction docs as [|doc docs IH]; intros m; [done|].
  simpl. rewrite IH.
  destruct (decide (key ∈ key_of <$> docs)) as [Hin|Hnot].
  - rewrite decide_True; [done|]. by apply elem_of_cons; right.
  - destruct (decide (key = key_of doc)) as [->|Hne].
    + rewrite decide_True by (by apply elem_of_cons; left).
      by rewrite lookup_delete_eq.
    + rewrite decide_False by (by intros [?|?]%elem_of_cons).
      by rewrite lookup_delete_ne.
Qed.

Lemma lookup_foldl_insert {A} (key_of : A → string) (text : A → string)
    (docs : list A) (m : gmap string string) key :
  foldl (λ m doc, <[key_of doc := text doc]> m) m docs !! key =
  match last (filter (λ doc, key_of doc = key) docs) with
  | Some doc => Some (text doc)
  | None => m !! key
  end.
Proof.
  revert m. induction docs as [|doc docs IH]; intros m; [done|].
  simpl. rewrite IH. rewrite filter_cons.
  destruct (decide (key_of doc = key)) as [<-|Hne].
  - destruct (filter _ docs) as [|d ds] eqn:Hf; simpl.
    + by rewrite lookup_insert_eq.
    + rewrite !last_cons. by destruct (last ds).
  - destruct (last _); [done|]. by rewrite lookup_insert_ne.
Qed.

Lemma Model_selected_spec this Q w key doc :
  Model_selected this Q w key = Some doc ↔
  String.prefix (Model.name this +:+ ":") key = true ∧
  ∃ raw, redis w !! key = Some raw ∧ raw ≠ "" ∧
         JSON_parse raw = Some doc ∧ Model._matchesQuery doc Q = true.
Proof.
  unfold Model_selected.
  destruct (String.prefix _ key); [|by split; [|intros []]].
  destruct (redis w !! key) as [raw|]; [|by split; [|intros [_ (?&?&_)]]].
  destruct (String.eqb_spec raw "") as [->|Hne].
  { split; [done|]. intros [_ (? & [= <-] & ? & _)]. done. }
  destruct (JSON_parse raw) as [doc'|] eqn:Hparse.
  - destruct (Model._matchesQuery doc' Q) eqn:Hm.
    + split; [intros [= <-]; eauto 10|].
      intros [_ (? & [= <-] & _ & ? & _)]. congruence.
    + split; [done|]. intros [_ (? & [= <-] & _ & ? & ?)]. congruence.
  - split; [done|]. intros [_ (? & [= <-] & _ & ? & _)]. congruence.
Qed.

Lemma Model_well_keyed_decodable this w :
  Model_well_keyed this w → decodable (Model.name this +:+ ":") w.
Proof.
  intros Hwk key raw Hget Hp Hne.
  destruct (Hwk key raw Hget Hp Hne) as (doc & -> & _). eauto.
Qed.

(** In a collection that is keyed by [_id], the documents that the scan
    returns are found again under the keys computed from them. *)
Lemma Model_found_key this Q w (keys : list string) key doc :
  Model_well_keyed this w →
  (∀ key, key ∈ keys ↔
     String.prefix (Model.name this +:+ ":") key = true ∧
     is_Some (redis w !! key)) →
  doc ∈ omap (Model_selected this Q w) keys ∧ Model.key_of this doc = key ↔
  Model_selected this Q w key = Some doc.
Proof.
  intros Hwk Hmem. rewrite list_elem_of_omap. split.
  - intros [(k & _ & Hsel) Hkey].
    pose proof Hsel as (Hp & raw & Hget & Hne & Hparse & _)%Model_selected_spec.
    destruct (Hwk k raw Hget Hp Hne) as (doc' & Hparse' & Hk).
    assert (doc' = doc) as -> by congruence. congruence.
  - intros Hsel.
    pose proof Hsel as (Hp & raw & Hget & Hne & Hparse & _)%Model_selected_spec.
    destruct (Hwk key raw Hget Hp Hne) as (doc' & Hparse' & Hk).
    assert (doc' = doc) as -> by congruence.
    split; [|done]. exists key. split; [|done]. apply Hmem. eauto.
Qed.

(** Property X18.
    On a collection that is keyed by [_id], [deleteMany(Q)] removes the
    entries of the documents that [find(Q)] returns and no other entry; it
    returns their number, and afterwards no document matches [Q]. *)
Theorem Model_deleteMany_removes_the_matches
    (this : Model.t) (Q : query) (w : world) :
  Model_well_keyed this w →
  ∃ found w',
    QueryBuilder.exec (Model.find this Q) w = (Ok found, w) ∧
    Model.deleteMany this Q w = (Ok (length found), w') ∧
    (∀ key, redis w' !! key =
            if Model_selected this Q w key is Some _ then None
            else redis w !! key) ∧
    Model.countDocuments this Q w' = (Ok 0, w').
Proof.
  intros Hwk.
  destruct (exec_find_selected this Q w) as (keys & _ & Hmem & Hexec).
  { by apply Model_well_keyed_decodable. }
  set (found := omap (Model_selected this Q w) keys) in *.
  set (w' := Redis.set_redis
               (λ m, foldl (λ m doc, delete (Model.key_of this doc) m)
                       m found) w).
  assert (∀ key, redis w' !! key =
            if Model_selected this Q w key is Some _ then None
            else redis w !! key) as Hlookup.
  { intros key. unfold w'. cbn [redis Redis.set_redis].
    rewrite (lookup_foldl_delete (Model.key_of this)).
    destruct (Model_selected this Q w key) as [doc|] eqn:Hsel.
    - rewrite decide_True; [done|]. apply list_elem_of_fmap. exists doc.
      by apply (Model_found_key this Q w keys key doc) in Hsel as [? ?].
    - rewrite decide_False; [done|].
      intros (doc & Hkey & Hin)%list_elem_of_fmap.
      assert (Model_selected this Q w key = Some doc); [|congruence].
      by apply (Model_found_key this Q w keys).
  }
  exists found, w'. split; [done|]. split; [|split; [done|]].
  - unfold Model.deleteMany, bind. rewrite Hexec.
    by rewrite Model_deleteMany_loop_spec.
  - assert (∀ key, Model_selected this Q w' key = None) as Hnone.
    { intros key. destruct (Model_selected this Q w' key) as [doc|] eqn:Hsel;
        [|done].
      apply Model_selected_spec in Hsel
        as (Hp & raw & Hget & Hne & Hparse & Hm).
      rewrite Hlookup in Hget.
      destruct (Model_selected this Q w key) as [doc'|] eqn:Hsel'; [done|].
      assert (Model_selected this Q w key = Some doc); [|congruence].
      apply Model_selected_spec. eauto 10. }
    destruct (exec_find_selected this Q w') as (keys' & _ & _ & Hexec').
    { intros key raw Hget Hp Hne. rewrite Hlookup in Hget.
      destruct (Model_selected this Q w key); [done|].
      by apply (Model_well_keyed_decodable this w Hwk key raw). }
    unfold Model.countDocuments, bind. rewrite Hexec'.
    replace (omap (Model_selected this Q w') keys') with (@nil object); [done|].
    symmetry. clear Hexec'. induction keys' as [|k ks IH]; [done|].
    simpl. by rewrite Hnone.
Qed.

(** Property X19.
    On a collection that is keyed by [_id], [updateMany(Q, P)] replaces the
    entry of each document that [find(Q)] returns by the encoding of its
    shallow merge with [P], leaves every other entry as it is, and returns
    the number of those documents. *)
Theorem Model_updateMany_merges_the_matches
    (this : Model.t) (Q : query) (P : object) (w : world) :
  Model_well_keyed this w →
  ∃ found w',
    QueryBuilder.exec (Model.find this Q) w = (Ok found, w) ∧
    Model.updateMany this Q P w = (Ok (length found), w') ∧
    ∀ key, redis w' !! key =
           match Model_selected this Q w key with
           | Some doc => Some (JSON_stringify (Object_assign doc P))
           | None => redis w !! key
           end.
Proof.
  intros Hwk.
  destruct (exec_find_selected this Q w) as (keys & _ & Hmem & Hexec).
  { by apply Model_well_keyed_decodable. }
  set (found := omap (Model_selected this Q w) keys) in *.
  eexists found, _. split; [done|]. split.
  - unfold Model.updateMany, bind. rewrite Hexec.
    by rewrite Model_updateMany_loop_spec.
  - intros key. cbn [redis Redis.set_redis].
    rewrite (lookup_foldl_insert (Model.key_of this)
               (λ doc, JSON_stringify (Object_assign doc P))).
    destruct (last _) as [doc|] eqn:Hlast.
    + apply last_Some_elem_of, list_elem_of_filter in Hlast as [Hkey Hin].
      assert (Model_selected this Q w key = Some doc) as ->; [|done].
      by apply (Model_found_key this Q w keys).
    + apply last_None in Hlast.
      destruct (Model_selected this Q w key) as [doc|] eqn:Hsel; [|done].
      apply (Model_found_key this Q w keys key doc) in Hsel as [Hin Hkey];
        [|done..].
      assert (doc ∈ filter (λ doc, Model.key_of this doc = key) found) as Hf
        by (by apply list_elem_of_filter).
      rewrite Hlast in Hf. by apply elem_of_nil in Hf.
Qed.

End BulkFacts.

(** ** What the methods of Model leave alone *)

Section ModelFrameFacts.
Context {rt : Runtime}.

(** Property X20.
    [deleteMany(Q)] and [updateMany(Q, P)] return the number of documents
    that [find(Q)] returns, the number that [countDocuments(Q)] gives,
    whether or not a key was removed for each of them; they throw when the
    scan throws. *)
Theorem Model_bulk_operations_return_the_count
    (this : Model.t) (Q : query) (P : object) (w : world) :
  (Model.deleteMany this Q w).1 = (Model.countDocuments this Q w).1 ∧
  (Model.updateMany this Q P w).1 = (Model.countDocuments this Q w).1.
Proof.
  unfold Model.deleteMany, Model.updateMany, Model.countDocuments, bind.
  destruct (QueryBuilder.exec (Model.find this Q) w) as [[found|e] w'];
    [|done].
  by rewrite Model_deleteMany_loop_spec, Model_updateMany_loop_spec.
Qed.

(** Property X21.
    The methods that read ([find] with any chain of [sort], [skip] and
    [limit], [findOne], [findById], [countDocuments]) leave the keyspace as
    it is, also when they throw. *)
Theorem Model_reads_do_not_write
    (this : Model.t) (Q : query) (id : string)
    (calls : list QueryBuilder.call) (w : world) :
  (QueryBuilder.exec (QueryBuilder.chain (Model.find this Q) calls) w).2 = w ∧
  (Model.findOne this Q w).2 = w ∧
  (Model.findById this id w).2 = w ∧
  (Model.countDocuments this Q w).2 = w.
Proof.
  assert (∀ b, QueryBuilder.dataFetcher b = Model.fetcher this Q →
               (QueryBuilder.exec b w).2 = w) as Hexec.
  { intros b Hb. unfold QueryBuilder.exec, bind, ret. rewrite Hb.
    pose proof (fetcher_world this Q w) as Hw.
    by destruct (Model.fetcher this Q w) as [[found|e] w']. }
  split; [|split; [|split]].
  - apply Hexec. by rewrite chain_dataFetcher.
  - unfold Model.findOne, bind, ret.
    pose proof (Hexec (QueryBuilder.limit (of_Z 1) (Model.find this Q))
                  eq_refl) as Hw.
    by destruct (QueryBuilder.exec _ w) as [[found|e] w'].
  - unfold Model.findById, bind, Redis.get, parse, ret, throw.
    destruct (Redis.falsy _); [done|]. by destruct (JSON_parse _).
  - unfold Model.countDocuments, bind, ret.
    pose proof (Hexec (Model.find this Q) eq_refl) as Hw.
    by destruct (QueryBuilder.exec _ w) as [[found|e] w'].
Qed.

(** Property X22.
    No method of a [Model] touches a key outside the prefix of its
    collection: after [create], [update], [updateMany], [delete] and
    [deleteMany], such a key holds what it held before. *)
Theorem Model_writes_stay_in_the_collection
    (this : Model.t) (Q : query) (id : string) (data : object)
    (key : string) (w : world) :
  String.prefix (Model.name this +:+ ":") key = false →
  redis (Model.create this data w).2 !! key = redis w !! key ∧
  redis (Model.update this id data w).2 !! key = redis w !! key ∧
  redis (Model.updateMany this Q data w).2 !! key = redis w !! key ∧
  redis (Model.delete this id w).2 !! key = redis w !! key ∧
  redis (Model.deleteMany this Q w).2 !! key = redis w !! key.
Proof.
  intros Hout.
  assert (∀ id', key ≠ Model._key this id') as Hne.
  { intros id' ->. by rewrite Model_key_prefix in Hout. }
  pose proof (fetcher_world this Q w) as Hw. rewrite <- exec_find in Hw.
  split; [|split; [|split; [|split]]].
  - unfold Model.create, bind, uuidv4, Redis.set, ret. simpl.
    by rewrite lookup_insert_ne.
  - unfold Model.update, bind, Redis.get, parse. simpl.
    destruct (Redis.falsy _); [done|].
    destruct (JSON_parse _); simpl; [|done]. by rewrite lookup_insert_ne.
  - unfold Model.updateMany, bind.
    destruct (QueryBuilder.exec _ w) as [[found|e] w']; simpl in Hw; subst w';
      [|done].
    rewrite Model_updateMany_loop_spec. cbn [snd redis Redis.set_redis].
    rewrite (lookup_foldl_insert (Model.key_of this)
               (λ doc, JSON_stringify (Object_assign doc data))).
    destruct (last _) as [doc|] eqn:Hlast; [|done].
    apply last_Some_elem_of, list_elem_of_filter in Hlast as [Hkey _].
    by destruct (Hne (JS.ToString (get doc "_id"))).
  - unfold Model.delete, Redis.del. simpl. by rewrite lookup_delete_ne.
  - unfold Model.deleteMany, bind.
    destruct (QueryBuilder.exec _ w) as [[found|e] w']; simpl in Hw; subst w';
      [|done].
    rewrite Model_deleteMany_loop_spec. cbn [snd redis Redis.set_redis].
    rewrite (lookup_foldl_delete (Model.key_of this)).
    rewrite decide_False; [done|].
    intros (doc & Hkey & _)%list_elem_of_fmap.
    by destruct (Hne (JS.ToString (get doc "_id"))).
Qed.

End ModelFrameFacts.

(** ** The bulk operations and the deletions of RedisModel *)

Section SchemalessBulkFacts.
Context {rt : Runtime}.

Lemma RedisModel_key_prefix this id :
  String.prefix (RedisModel.modelName this +:+ ":") (RedisModel.getKey this id)
  = true.
Proof.
  unfold RedisModel.getKey. rewrite <- append_assoc. apply prefix_append.
Qed.

Lemma findOne_loop_world query keys w :
  (RedisModel.findOne_loop query keys w).2 = w.
Proof.
  induction keys as [|key keys IH]; [done|].
  simpl. unfold bind, Redis.get, parse, lift. simpl.
  destruct (Redis.falsy _); [apply IH|].
  destruct (JSON_parse _) as [doc|]; simpl; [|done].
  destruct (RedisModel._matches _ _) as [[]|]; simpl; try apply IH; done.
Qed.

Lemma RedisModel_find_world this Q w : (RedisModel.find this Q w).2 = w.
Proof.
  unfold RedisModel.find, bind, Redis.getRedisClient, Redis.keys.
  destruct (client w); [|done]. apply find_loop_world.
Qed.

Lemma RedisModel_findOne_world this Q w : (RedisModel.findOne this Q w).2 = w.
Proof.
  unfold RedisModel.findOne, bind, Redis.getRedisClient, Redis.keys.
  destruct (client w); [|done]. apply findOne_loop_world.
Qed.

(** Property X23.
    The methods of [RedisModel] that read leave the keyspace as it is,
    also when they throw. *)
Theorem RedisModel_reads_do_not_write
    (this : RedisModel.t) (Q : query) (id : string) (w : world) :
  (RedisModel.find this Q w).2 = w ∧
  (RedisModel.findOne this Q w).2 = w ∧
  (RedisModel.findById this id w).2 = w ∧
  (RedisModel.countDocuments this Q w).2 = w.
Proof.
  split; [apply RedisModel_find_world|].
  split; [apply RedisModel_findOne_world|]. split.
  - unfold RedisModel.findById, bind, Redis.getRedisClient, Redis.get, parse.
    destruct (client w); [|done]. destruct (Redis.falsy _); [done|].
    by destruct (JSON_parse _).
  - unfold RedisModel.countDocuments, bind, ret.
    pose proof (RedisModel_find_world this Q w) as Hw.
    by destruct (RedisModel.find this Q w) as [[found|e] w'].
Qed.

(** The loops of [deleteMany] and [updateMany] skip the documents whose
    [id] is falsy and count the others. *)
Lemma RedisModel_deleteMany_loop_spec this docs count w :
  let keyed := filter (λ doc, JS.ToBoolean (get doc "id") = true) docs in
  RedisModel.deleteMany_loop this docs count w =
    (Ok (count + length keyed),
     Redis.set_redis
       (λ m, foldl (λ m doc,
                      delete (RedisModel.getKey this (get doc "id")) m)
                   m keyed) w).
Proof.
  revert count w. induction docs as [|doc docs IH]; intros count w.
  { simpl. unfold ret, Redis.set_redis. rewrite Nat.add_0_r.
    by destruct w. }
  simpl. rewrite filter_cons.
  destruct (JS.ToBoolean (get doc "id")) eqn:Hid; simpl.
  - unfold bind, Redis.del. rewrite IH.
    simpl. f_equal. f_equal. lia.
  - apply IH.
Qed.

Lemma RedisModel_updateMany_loop_spec this update docs count w :
  let keyed := filter (λ doc, JS.ToBoolean (get doc "id") = true) docs in
  RedisModel.updateMany_loop this update docs count w =
    (Ok (count + length keyed),
     Redis.set_redis
       (λ m, foldl (λ m doc,
                      <[RedisModel.getKey this (get doc "id") :=
                          JSON_stringify (Object_assign doc update)]> m)
                   m keyed) w).
Proof.
  revert count w. induction docs as [|doc docs IH]; intros count w.
  { simpl. unfold ret, Redis.set_redis. rewrite Nat.add_0_r.
    by destruct w. }
  simpl. rewrite filter_cons.
  destruct (JS.ToBoolean (get doc "id")) eqn:Hid; simpl.
  - unfold bind, Redis.set. rewrite IH.
    simpl. f_equal. f_equal. lia.
  - apply IH.
Qed.

(** Property X24.
    No method of a [RedisModel] touches a key outside the prefix of its
    collection. *)
Theorem RedisModel_writes_stay_in_the_collection
    (this : RedisModel.t) (Q : query) (doc update : object)
    (opts : options) (key : string) (w : world) :
  String.prefix (RedisModel.modelName this +:+ ":") key = false →
  redis (RedisModel.create this doc w).2 !! key = redis w !! key ∧
  redis (RedisModel.updateMany this Q update w).2 !! key = redis w !! key ∧
  redis (RedisModel.updateOne this Q update w).2 !! key = redis w !! key ∧
  redis (RedisModel.findOneAndUpdate this Q update opts w).2 !! key
    = redis w !! key ∧
  redis (RedisModel.deleteMany this Q w).2 !! key = redis w !! key ∧
  redis (RedisModel.deleteOne this Q w).2 !! key = redis w !! key ∧
  redis (RedisModel.findOneAndDelete this Q w).2 !! key = redis w !! key.
Proof.
  intros Hout.
  assert (∀ id, key ≠ RedisModel.getKey this id) as Hne.
  { intros id ->. by rewrite RedisModel_key_prefix in Hout. }
  pose proof (RedisModel_find_world this Q w) as Hfind.
  pose proof (RedisModel_findOne_world this Q w) as Hone.
  assert (∀ (B : Type) (k : object → B) (b : B),
            redis ((do found <- RedisModel.findOne this Q;
                    match found with
                    | None => ret b
                    | Some d =>
                        if negb (JS.ToBoolean (get d "id")) then ret b
                        else
                          do _ <- Redis.getRedisClient;
                          do _ <- Redis.del
                                    (RedisModel.getKey this (get d "id"));
                          ret (k d)
                    end) w).2 !! key = redis w !! key) as Hdel.
  { intros B k b. unfold bind at 1.
    destruct (RedisModel.findOne this Q w) as [[[d|]|e] w'];
      simpl in Hone; subst w'; try done.
    destruct (negb _); [done|].
    unfold bind, Redis.getRedisClient, Redis.del.
    destruct (client w); [|done]. simpl. by rewrite lookup_delete_ne. }
  assert (∀ (k : object → object → option object),
            redis ((do found <- RedisModel.findOne this Q;
                    match found with
                    | None => ret None
                    | Some d =>
                        if negb (JS.ToBoolean (get d "id")) then ret None
                        else
                          do _ <- Redis.getRedisClient;
                          let updated := Object_assign d update in
                          do _ <- Redis.set
                                    (RedisModel.getKey this (get d "id"))
                                    (JSON_stringify updated);
                          ret (k d updated)
                    end) w).2 !! key = redis w !! key) as Hset.
  { intros k. unfold bind at 1.
    destruct (RedisModel.findOne this Q w) as [[[d|]|e] w'];
      simpl in Hone; subst w'; try done.
    destruct (negb _); [done|].
    unfold bind, Redis.getRedisClient, Redis.set.
    destruct (client w); [|done]. simpl. by rewrite lookup_insert_ne. }
  repeat split.
  - unfold RedisModel.create, bind, Redis.getRedisClient.
    destruct (client w); [|done].
    destruct (get doc "id"); unfold uuidv4, ret, Redis.set; simpl;
      by rewrite lookup_insert_ne.
  - unfold RedisModel.updateMany. unfold bind at 1.
    destruct (RedisModel.find this Q w) as [[found|e] w'];
      simpl in Hfind; subst w'; [|done].
    unfold bind, Redis.getRedisClient. destruct (client w); [|done].
    rewrite RedisModel_updateMany_loop_spec. cbn [snd redis Redis.set_redis].
    rewrite (lookup_foldl_insert
               (λ doc, RedisModel.getKey this (get doc "id"))
               (λ doc, JSON_stringify (Object_assign doc update))).
    destruct (last _) as [d|] eqn:Hlast; [|done].
    apply last_Some_elem_of, list_elem_of_filter in Hlast as [Hkey _].
    by destruct (Hne (get d "id")).
  - apply (Hset (λ _ updated, Some updated)).
  - apply (Hset (λ d updated,
                   Some (if returnNew opts is Some true then updated
                         else d))).
  - unfold RedisModel.deleteMany. unfold bind at 1.
    destruct (RedisModel.find this Q w) as [[found|e] w'];
      simpl in Hfind; subst w'; [|done].
    unfold bind, Redis.getRedisClient. destruct (client w); [|done].
    rewrite RedisModel_deleteMany_loop_spec. cbn [snd redis Redis.set_redis].
    rewrite (lookup_foldl_delete
               (λ doc, RedisModel.getKey this (get doc "id"))).
    rewrite decide_False; [done|].
    intros (d & Hkey & _)%list_elem_of_fmap. by destruct (Hne (get d "id")).
  - apply (Hdel nat (λ _, 1) 0).
  - apply (Hdel (option object) Some None).
Qed.

End SchemalessBulkFacts.

Section SchemalessSelectedFacts.
Context {rt : Runtime}.

Lemma RedisModel_selected_spec this Q w key doc :
  RedisModel_selected this Q w key = Some doc ↔
  String.prefix (RedisModel.modelName this +:+ ":") key = true ∧
  ∃ raw, redis w !! key = Some raw ∧ raw ≠ "" ∧
         JSON_parse raw = Some doc ∧ RedisModel._matches doc Q = Ok true.
Proof.
  unfold RedisModel_selected.
  destruct (String.prefix _ key); [|by split; [|intros []]].
  destruct (redis w !! key) as [raw|]; [|by split; [|intros [_ (?&?&_)]]].
  destruct (String.eqb_spec raw "") as [->|Hne].
  { split; [done|]. intros [_ (? & [= <-] & ? & _)]. done. }
  destruct (JSON_parse raw) as [doc'|] eqn:Hparse.
  - destruct (RedisModel._matches doc' Q) as [[]|] eqn:Hm.
    + split; [intros [= <-]; eauto 10|].
      intros [_ (? & [= <-] & _ & ? & _)]. congruence.
    + split; [done|]. intros [_ (? & [= <-] & _ & ? & ?)]. congruence.
    + split; [done|]. intros [_ (? & [= <-] & _ & ? & ?)]. congruence.
  - split; [done|]. intros [_ (? & [= <-] & _ & ? & _)]. congruence.
Qed.

(** The scan of [RedisModel.find] on keys of the collection whose texts
    decode, for a query that can be evaluated: the selected documents, in
    the order of the keys. *)
Lemma find_loop_selected this (Q : query) keys results w :
  (∀ key, key ∈ keys →
     String.prefix (RedisModel.modelName this +:+ ":") key = true) →
  (∀ key raw, key ∈ keys → redis w !! key = Some raw → raw ≠ "" →
              is_Some (JSON_parse raw)) →
  well_typed Q →
  RedisModel.find_loop Q keys results w =
    (Ok (results ++ omap (RedisModel_selected this Q w) keys)%list, w).
Proof.
  intros Hp Hdec Htyped. revert results Hp Hdec.
  induction keys as [|key keys IH]; intros results Hp Hdec.
  { simpl. by rewrite app_nil_r. }
  assert (∀ k, k ∈ keys →
            String.prefix (RedisModel.modelName this +:+ ":") k = true)
    as Hp'.
  { intros ? Hin. apply Hp. by apply elem_of_cons; right. }
  assert (∀ k raw, k ∈ keys → redis w !! k = Some raw →
            raw ≠ "" → is_Some (JSON_parse raw)) as Hdec'.
  { intros ?? Hin. apply Hdec. by apply elem_of_cons; right. }
  cbn [RedisModel.find_loop omap list_omap]. unfold bind at 1, Redis.get.
  unfold RedisModel_selected at 1.
  rewrite Hp by (by apply elem_of_cons; left).
  destruct (redis w !! key) as [raw|] eqn:Hget; simpl; [|by apply IH].
  destruct (String.eqb_spec raw "") as [->|Hne]; simpl; [by apply IH|].
  destruct (Hdec key raw) as [doc Hdoc]; [by apply elem_of_cons; left|done..|].
  destruct (matches_total doc Q Htyped) as [b Hb].
  unfold bind, parse, lift. rewrite Hdoc. simpl. rewrite Hb.
  destruct b; [|by apply IH].
  rewrite IH by done. by rewrite <- app_assoc.
Qed.

Lemma RedisModel_find_selected this (Q : query) w :
  client w = true →
  decodable (RedisModel.modelName this +:+ ":") w →
  well_typed Q →
  ∃ keys : list string,
    (∀ key, key ∈ keys ↔
       String.prefix (RedisModel.modelName this +:+ ":") key = true ∧
       is_Some (redis w !! key)) ∧
    RedisModel.find this Q w =
      (Ok (omap (RedisModel_selected this Q w) keys), w) ∧
    RedisModel.findOne this Q w =
      (Ok (head (omap (RedisModel_selected this Q w) keys)), w).
Proof.
  intros Hclient Hdec Htyped.
  destruct (keys_spec (RedisModel.modelName this +:+ ":") w)
    as (keys & Hkeys & Hmem).
  exists keys. split; [done|].
  assert (RedisModel.find_loop Q keys [] w =
          (Ok (omap (RedisModel_selected this Q w) keys), w)) as Hloop.
  { rewrite (find_loop_selected this); [done| |
                                        |done].
    - by intros key [? _]%Hmem.
    - intros key raw [Hp _]%Hmem Hget Hne. by apply (Hdec key raw). }
  split.
  - unfold RedisModel.find. unfold bind at 1. unfold Redis.getRedisClient.
    rewrite Hclient. unfold bind. by rewrite Hkeys.
  - unfold RedisModel.findOne. unfold bind at 1. unfold Redis.getRedisClient.
    rewrite Hclient. unfold bind. rewrite Hkeys.
    by apply find_loop_head in Hloop as (more & -> & ->).
Qed.

(** A selected document of a collection keyed by [id] has a truthy [id],
    and the key computed from it is the key that holds it. *)
Lemma RedisModel_selected_keyed this Q w key doc :
  well_keyed this w →
  RedisModel_selected this Q w key = Some doc →
  JS.ToBoolean (get doc "id") = true ∧
  RedisModel.getKey this (get doc "id") = key.
Proof.
  intros Hwk (Hp & raw & Hget & Hne & Hparse & _)%RedisModel_selected_spec.
  destruct (Hwk key raw Hget Hp Hne) as (doc' & id & Hparse' & Hid & Hidne & ->).
  assert (doc' = doc) as -> by congruence.
  unfold get. rewrite Hid. simpl. split; [|done].
  apply negb_true_iff. by apply String.eqb_neq.
Qed.

Lemma RedisModel_found_key this Q w (keys : list string) key doc :
  well_keyed this w →
  (∀ key, key ∈ keys ↔
     String.prefix (RedisModel.modelName this +:+ ":") key = true ∧
     is_Some (redis w !! key)) →
  doc ∈ omap (RedisModel_selected this Q w) keys ∧
  RedisModel.getKey this (get doc "id") = key ↔
  RedisModel_selected this Q w key = Some doc.
Proof.
  intros Hwk Hmem. rewrite list_elem_of_omap. split.
  - intros [(k & _ & Hsel) Hkey].
    destruct (RedisModel_selected_keyed this Q w k doc Hwk Hsel) as [_ Hk].
    congruence.
  - intros Hsel.
    destruct (RedisModel_selected_keyed this Q w key doc Hwk Hsel) as [_ Hk].
    split; [|done]. exists key. split; [|done].
    apply RedisModel_selected_spec in Hsel as (Hp & raw & Hget & _).
    apply Hmem. eauto.
Qed.

Lemma filter_keyed this Q w (keys : list string) :
  well_keyed this w →
  filter (λ doc, JS.ToBoolean (get doc "id") = true)
    (omap (RedisModel_selected this Q w) keys)
  = omap (RedisModel_selected this Q w) keys.
Proof.
  intros Hwk. induction keys as [|key keys IH]; [done|].
  cbn [omap list_omap].
  destruct (RedisModel_selected this Q w key) as [doc|] eqn:Hsel; [|done].
  destruct (RedisModel_selected_keyed this Q w key doc Hwk Hsel) as [Hid _].
  rewrite filter_cons, decide_True by done. by f_equal.
Qed.

(** Property X25.
    On a collection keyed by [id] and a query of the declared type,
    [findOneAndDelete(Q)] removes the entry of the first document that
    [find(Q)] returns, and returns that document; [deleteOne(Q)] does the
    same and returns 1. When no document matches, the two methods,
    [findOneAndUpdate] and [updateOne] return [null] (0 for [deleteOne])
    and write nothing. *)
Theorem findOneAndDelete_removes_the_first_match
    (this : RedisModel.t) (Q : query) (P : object) (opts : options)
    (w : world) :
  client w = true → well_keyed this w → well_typed Q →
  ∃ found,
    RedisModel.find this Q w = (Ok found, w) ∧
    match head found with
    | Some doc =>
        ∃ key w',
          RedisModel_selected this Q w key = Some doc ∧
          w' = Redis.set_redis (delete key) w ∧
          RedisModel.findOneAndDelete this Q w = (Ok (Some doc), w') ∧
          RedisModel.deleteOne this Q w = (Ok 1, w')
    | None =>
        RedisModel.findOneAndDelete this Q w = (Ok None, w) ∧
        RedisModel.deleteOne this Q w = (Ok 0, w) ∧
        RedisModel.findOneAndUpdate this Q P opts w = (Ok None, w) ∧
        RedisModel.updateOne this Q P w = (Ok None, w)
    end.
Proof.
  intros Hclient Hwk Htyped.
  destruct (RedisModel_find_selected this Q w Hclient)
    as (keys & Hmem & Hfind & Hone); [by apply well_keyed_decodable|done|].
  eexists. split; [done|].
  destruct (head _) as [doc|] eqn:Hhead.
  - apply head_Some_elem_of, list_elem_of_omap in Hhead as (key & _ & Hsel).
    destruct (RedisModel_selected_keyed this Q w key doc Hwk Hsel)
      as [Hid Hkey].
    exists key, (Redis.set_redis (delete key) w).
    split; [done|]. split; [done|].
    unfold RedisModel.findOneAndDelete, RedisModel.deleteOne, bind.
    rewrite Hone, Hid, Hkey. simpl. unfold Redis.getRedisClient, Redis.del.
    by rewrite Hclient.
  - unfold RedisModel.findOneAndDelete, RedisModel.deleteOne,
      RedisModel.findOneAndUpdate, RedisModel.updateOne, bind.
    by rewrite Hone.
Qed.

(** Property X26.
    On a collection keyed by [id] and a query of the declared type,
    [RedisModel.deleteMany(Q)] removes the entries of the documents that
    [find(Q)] returns and no other entry; it returns their number, and
    afterwards [countDocuments(Q)] is 0. *)
Theorem RedisModel_deleteMany_removes_the_matches
    (this : RedisModel.t) (Q : query) (w : world) :
  client w = true → well_keyed this w → well_typed Q →
  ∃ found w',
    RedisModel.find this Q w = (Ok found, w) ∧
    RedisModel.deleteMany this Q w = (Ok (length found), w') ∧
    (∀ key, redis w' !! key =
            if RedisModel_selected this Q w key is Some _ then None
            else redis w !! key) ∧
    RedisModel.countDocuments this Q w' = (Ok 0, w').
Proof.
  intros Hclient Hwk Htyped.
  destruct (RedisModel_find_selected this Q w Hclient)
    as (keys & Hmem & Hfind & _); [by apply well_keyed_decodable|done|].
  set (found := omap (RedisModel_selected this Q w) keys) in *.
  set (w' := Redis.set_redis
               (λ m, foldl (λ m doc,
                              delete (RedisModel.getKey this (get doc "id")) m)
                       m found) w).
  assert (∀ key, redis w' !! key =
            if RedisModel_selected this Q w key is Some _ then None
            else redis w !! key) as Hlookup.
  { intros key. unfold w'. cbn [redis Redis.set_redis].
    rewrite (lookup_foldl_delete
               (λ doc, RedisModel.getKey this (get doc "id"))).
    destruct (RedisModel_selected this Q w key) as [doc|] eqn:Hsel.
    - rewrite decide_True; [done|]. apply list_elem_of_fmap. exists doc.
      by apply (RedisModel_found_key this Q w keys key doc) in Hsel as [? ?].
    - rewrite decide_False; [done|].
      intros (doc & Hkey & Hin)%list_elem_of_fmap.
      assert (RedisModel_selected this Q w key = Some doc); [|congruence].
      by apply (RedisModel_found_key this Q w keys). }
  exists found, w'. split; [done|]. split; [|split; [done|]].
  - unfold RedisModel.deleteMany. unfold bind at 1. rewrite Hfind.
    unfold bind, Redis.getRedisClient. rewrite Hclient.
    rewrite RedisModel_deleteMany_loop_spec. unfold found.
    by rewrite filter_keyed.
  - assert (∀ key, RedisModel_selected this Q w' key = None) as Hnone.
    { intros key.
      destruct (RedisModel_selected this Q w' key) as [doc|] eqn:Hsel;
        [|done].
      apply RedisModel_selected_spec in Hsel
        as (Hp & raw & Hget & Hne & Hparse & Hm).
      rewrite Hlookup in Hget.
      destruct (RedisModel_selected this Q w key) as [doc'|] eqn:Hsel';
        [done|].
      assert (RedisModel_selected this Q w key = Some doc); [|congruence].
      apply RedisModel_selected_spec. eauto 10. }
    destruct (RedisModel_find_selected this Q w')
      as (keys' & _ & Hfind' & _); [done| |done|].
    { intros key raw Hget Hp Hne. rewrite Hlookup in Hget.
      destruct (RedisModel_selected this Q w key); [done|].
      by apply (well_keyed_decodable this w Hwk key raw). }
    unfold RedisModel.countDocuments, bind. rewrite Hfind'.
    replace (omap (RedisModel_selected this Q w') keys') with (@nil object);
      [done|].
    symmetry. clear Hfind'. induction keys' as [|k ks IH]; [done|].
    simpl. by rewrite Hnone.
Qed.

(** Property X27.
    On a collection keyed by [id] and a query of the declared type,
    [RedisModel.updateMany(Q, P)] replaces the entry of each document that
    [find(Q)] returns by the encoding of its shallow merge with [P], leaves
    every other entry as it is, and returns the number of those
    documents. *)
Theorem RedisModel_updateMany_merges_the_matches
    (this : RedisModel.t) (Q : query) (P : object) (w : world) :
  client w = true → well_keyed this w → well_typed Q →
  ∃ found w',
    RedisModel.find this Q w = (Ok found, w) ∧
    RedisModel.updateMany this Q P w = (Ok (length found), w') ∧
    ∀ key, redis w' !! key =
           match RedisModel_selected this Q w key with
           | Some doc => Some (JSON_stringify (Object_assign doc P))
           | None => redis w !! key
           end.
Proof.
  intros Hclient Hwk Htyped.
  destruct (RedisModel_find_selected this Q w Hclient)
    as (keys & Hmem & Hfind & _); [by apply well_keyed_decodable|done|].
  set (found := omap (RedisModel_selected this Q w) keys) in *.
  eexists found, _. split; [done|]. split.
  - unfold RedisModel.updateMany. unfold bind at 1. rewrite Hfind.
    unfold bind, Redis.getRedisClient. rewrite Hclient.
    rewrite RedisModel_updateMany_loop_spec. unfold found.
    by rewrite filter_keyed.
  - intros key. cbn [redis Redis.set_redis].
    rewrite (lookup_foldl_insert
               (λ doc, RedisModel.getKey this (get doc "id"))
               (λ doc, JSON_stringify (Object_assign doc P))).
    destruct (last _) as [doc|] eqn:Hlast.
    + apply last_Some_elem_of, list_elem_of_filter in Hlast as [Hkey Hin].
      assert (RedisModel_selected this Q w key = Some doc) as ->; [|done].
      by apply (RedisModel_found_key this Q w keys).
    + apply last_None in Hlast.
      destruct (RedisModel_selected this Q w key) as [doc|] eqn:Hsel;
        [|done].
      apply (RedisModel_found_key this Q w keys key doc) in Hsel
        as [Hin Hkey]; [|done..].
      assert (doc ∈ filter
                (λ doc, RedisModel.getKey this (get doc "id") = key) found)
        as Hf by (by apply list_elem_of_filter).
      unfold found in Hf. rewrite Hlast in Hf. by apply elem_of_nil in Hf.
Qed.

End SchemalessSelectedFacts.

(** ** The bulk operations on the collection of the scenarios *)

Lemma Model_users_well_keyed :
  Model_well_keyed (rt := Fixture.runtime (Fixture.users "_id"))
    Fixture.Users (Fixture.world_of "_id").
Proof.
  unfold Model_well_keyed, Fixture.world_of, Fixture.keyspace. cbn [redis].
  apply map_Forall_insert_2.
  { intros _ _. exists (Fixture.user "_id" "1" "Alice" 25).
    split; vm_compute; reflexivity. }
  apply map_Forall_insert_2.
  { intros _ _. exists (Fixture.bob "_id"). split; vm_compute; reflexivity. }
  apply map_Forall_insert_2.
  { intros _ _. exists (Fixture.user "_id" "3" "Charlie" 40).
    split; vm_compute; reflexivity. }
  apply map_Forall_singleton. Scenario.not_under_prefix.
Qed.

Lemma adults_well_typed :
  well_typed [("age", VObject {[ "$gte" := VNumber (of_Z 30) ]})].
Proof.
  intros field ops Hin%list_elem_of_singleton.
  assert (ops = {[ "$gte" := VNumber (of_Z 30) ]}) as -> by congruence.
  split; by left.
Qed.

(** [deleteMany({ age: { $gte: 30 } })] on the users removes Bob and
    Charlie. *)
Lemma Model_deleteMany_removes_the_matches_witness :
  let R := Fixture.runtime (Fixture.users "_id") in
  let Q := [("age", VObject {[ "$gte" := VNumber (of_Z 30) ]})] in
  let w := Fixture.world_of "_id" in
  Model_well_keyed Fixture.Users w ∧
  ∃ found w',
    QueryBuilder.exec (Model.find Fixture.Users Q) w = (Ok found, w) ∧
    Model.deleteMany Fixture.Users Q w = (Ok (length found), w') ∧
    Model.countDocuments Fixture.Users Q w' = (Ok 0, w').
Proof.
  intros R Q w. split; [exact Model_users_well_keyed|].
  destruct (Model_deleteMany_removes_the_matches Fixture.Users Q w
              Model_users_well_keyed)
    as (found & w' & Hfind & Hdel & _ & Hcount).
  exists found, w'. exact (conj Hfind (conj Hdel Hcount)).
Defined.

(** [updateMany({ age: { $gte: 30 } }, { active: true })] on the users. *)
Lemma Model_updateMany_merges_the_matches_witness :
  let R := Fixture.runtime (Fixture.users "_id") in
  let Q := [("age", VObject {[ "$gte" := VNumber (of_Z 30) ]})] in
  let P : object := {[ "active" := VBool true ]} in
  let w := Fixture.world_of "_id" in
  Model_well_keyed Fixture.Users w ∧
  ∃ found w',
    QueryBuilder.exec (Model.find Fixture.Users Q) w = (Ok found, w) ∧
    Model.updateMany Fixture.Users Q P w = (Ok (length found), w').
Proof.
  intros R Q P w. split; [exact Model_users_well_keyed|].
  destruct (Model_updateMany_merges_the_matches Fixture.Users Q P w
              Model_users_well_keyed)
    as (found & w' & Hfind & Hupd & _).
  exists found, w'. exact (conj Hfind Hupd).
Defined.

(** The key [Post:1] is not one of the users. *)
Lemma Model_writes_stay_in_the_collection_witness :
  let R := Fixture.runtime (Fixture.users "_id") in
  let w := Fixture.world_of "_id" in
  String.prefix "User:" "Post:1" = false ∧
  redis (Model.deleteMany Fixture.Users [] w).2 !! "Post:1"
    = redis w !! "Post:1".
Proof.
  intros R w. split; [reflexivity|].
  exact (proj2 (proj2 (proj2 (proj2
    (Model_writes_stay_in_the_collection Fixture.Users [] "1" ∅ "Post:1" w
       eq_refl))))).
Defined.

Lemma RedisModel_writes_stay_in_the_collection_witness :
  let R := Fixture.runtime (Fixture.users "id") in
  let w := Fixture.world_of "id" in
  String.prefix "User:" "Post:1" = false ∧
  redis (RedisModel.deleteMany Fixture.UserModel [] w).2 !! "Post:1"
    = redis w !! "Post:1".
Proof.
  intros R w. split; [reflexivity|].
  exact (proj1 (proj2 (proj2 (proj2 (proj2
    (RedisModel_writes_stay_in_the_collection Fixture.UserModel [] ∅ ∅
       no_options "Post:1" w eq_refl)))))).
Defined.

(** [findOneAndDelete({ age: { $gte: 30 } })] on the users. *)
Lemma findOneAndDelete_removes_the_first_match_witness :
  let R := Fixture.runtime (Fixture.users "id") in
  let Q := [("age", VObject {[ "$gte" := VNumber (of_Z 30) ]})] in
  let w := Fixture.world_of "id" in
  client w = true ∧ well_keyed Fixture.UserModel w ∧ well_typed Q ∧
  ∃ found,
    RedisModel.find Fixture.UserModel Q w = (Ok found, w) ∧
    match head found with
    | Some doc =>
        ∃ key w',
          RedisModel_selected Fixture.UserModel Q w key = Some doc ∧
          w' = Redis.set_redis (delete key) w ∧
          RedisModel.findOneAndDelete Fixture.UserModel Q w
            = (Ok (Some doc), w') ∧
          RedisModel.deleteOne Fixture.UserModel Q w = (Ok 1, w')
    | None =>
        RedisModel.findOneAndDelete Fixture.UserModel Q w = (Ok None, w) ∧
        RedisModel.deleteOne Fixture.UserModel Q w = (Ok 0, w) ∧
        RedisModel.findOneAndUpdate Fixture.UserModel Q ∅ no_options w
          = (Ok None, w) ∧
        RedisModel.updateOne Fixture.UserModel Q ∅ w = (Ok None, w)
    end.
Proof.
  intros R Q w.
  exact (conj eq_refl (conj Scenario.users_well_keyed (conj adults_well_typed
    (findOneAndDelete_removes_the_first_match Fixture.UserModel Q ∅
       no_options w eq_refl Scenario.users_well_keyed adults_well_typed)))).
Defined.

Lemma RedisModel_deleteMany_removes_the_matches_witness :
  let R := Fixture.runtime (Fixture.users "id") in
  let Q := [("age", VObject {[ "$gte" := VNumber (of_Z 30) ]})] in
  let w := Fixture.world_of "id" in
  client w = true ∧ well_keyed Fixture.UserModel w ∧ well_typed Q ∧
  ∃ found w',
    RedisModel.find Fixture.UserModel Q w = (Ok found, w) ∧
    RedisModel.deleteMany Fixture.UserModel Q w = (Ok (length found), w') ∧
    RedisModel.countDocuments Fixture.UserModel Q w' = (Ok 0, w').
Proof.
  intros R Q w.
  split; [reflexivity|]. split; [exact Scenario.users_well_keyed|].
  split; [exact adults_well_typed|].
  destruct (RedisModel_deleteMany_removes_the_matches Fixture.UserModel Q w
              eq_refl Scenario.users_well_keyed adults_well_typed)
    as (found & w' & Hfind & Hdel & _ & Hcount).
  exists found, w'. exact (conj Hfind (conj Hdel Hcount)).
Defined.

Lemma RedisModel_updateMany_merges_the_matches_witness :
  let R := Fixture.runtime (Fixture.users "id") in
  let Q := [("age", VObject {[ "$gte" := VNumber (of_Z 30) ]})] in
  let P : object := {[ "active" := VBool true ]} in
  let w := Fixture.world_of "id" in
  client w = true ∧ well_keyed Fixture.UserModel w ∧ well_typed Q ∧
  ∃ found w',
    RedisModel.find Fixture.UserModel Q w = (Ok found, w) ∧
    RedisModel.updateMany Fixture.UserModel Q P w = (Ok (length found), w').
Proof.
  intros R Q P w.
  split; [reflexivity|]. split; [exact Scenario.users_well_keyed|].
  split; [exact adults_well_typed|].
  destruct (RedisModel_updateMany_merges_the_matches Fixture.UserModel Q P w
              eq_refl Scenario.users_well_keyed adults_well_typed)
    as (found & w' & Hfind & Hupd & _).
  exists found, w'. exact (conj Hfind Hupd).
Defined.

(** ** The three evaluators on the queries that they share *)

Section AgreementFacts.
Context {rt : Runtime}.

Lemma forallb_map_to_list (f : string → value → bool) (ops : object) :
  forallb (λ '(op, operand), f op operand) (map_to_list ops) = true ↔
  ∀ op operand, ops !! op = Some operand → f op operand = true.
Proof.
  rewrite forallb_forall. split.
  - intros Hall op operand Hop.
    apply (Hall (op, operand)), list_elem_of_In. by apply elem_of_map_to_list.
  - intros Hall [op operand] Hin%list_elem_of_In%elem_of_map_to_list.
    by apply Hall.
Qed.

(** The loop over the keys of an operator object, when every key is one of
    the seven operators, is the conjunction of the seven tests. *)
Lemma switch_all_operators val (ops : object) :
  (∀ op operand, ops !! op = Some operand → op ∈ known_operators) →
  forallb (λ '(op, operand), Model.switch_op val op operand) (map_to_list ops)
  = operator_test val ops "$gt" && operator_test val ops "$gte" &&
    operator_test val ops "$lt" && operator_test val ops "$lte" &&
    operator_test val ops "$in" && operator_test val ops "$nin" &&
    operator_test val ops "$ne".
Proof.
  intros Hknown. apply eq_true_iff_eq.
  rewrite (forallb_map_to_list (Model.switch_op val)), !andb_true_iff.
  unfold operator_test. split.
  - intros Hall.
    repeat split;
      match goal with
      | |- context [ops !! ?k] =>
          destruct (ops !! k) as [x|] eqn:Hk; [by apply Hall|done]
      end.
  - intros ((((((H1 & H2) & H3) & H4) & H5) & H6) & H7) op operand Hop.
    pose proof (Hknown op operand Hop) as Hin. unfold known_operators in Hin.
    rewrite !elem_of_cons, elem_of_nil in Hin.
    destruct Hin as [-> | [-> | [-> | [-> | [-> | [-> | [-> | []]]]]]]];
      rewrite Hop in *; done.
Qed.

(** The guarded tests of [RedisModel._matches] are those of
    [Model._matchesQuery] when the operand, if any, is not [undefined]. *)
Lemma guard_is_operator_test val (ops : object) op (test : bool) :
  Object_prototype op = None →
  (∀ operand, ops !! op = Some operand → operand ≠ VUndefined) →
  (∀ operand, ops !! op = Some operand →
     Model.switch_op val op operand = test) →
  RedisModel.defined (get ops op) && negb test
  = negb (operator_test val ops op).
Proof.
  intros Hop Hdef Htest. unfold operator_test, get.
  destruct (ops !! op) as [operand|]; [|by rewrite Hop].
  rewrite (Htest operand eq_refl), defined_true; [done|by apply Hdef].
Qed.

Lemma check_operators_is_switch val (ops : object) :
  (∀ op operand, ops !! op = Some operand →
     op ∈ known_operators ∧ operand ≠ VUndefined) →
  (∀ operand, ops !! "$in" = Some operand → ∃ xs, operand = VArray xs) →
  (∀ operand, ops !! "$nin" = Some operand → ∃ xs, operand = VArray xs) →
  RedisModel.check_operators val ops =
  Ok (forallb (λ '(op, operand), Model.switch_op val op operand)
        (map_to_list ops)).
Proof.
  intros Hops Hin Hnin.
  rewrite switch_all_operators by (intros ???; by eapply Hops).
  assert (∀ op operand, ops !! op = Some operand → operand ≠ VUndefined)
    as Hdef by (intros ???; by eapply Hops).
  unfold RedisModel.check_operators.
  rewrite (guard_is_operator_test val ops "$gt"
             (JS.gt val (get ops "$gt"))); [|done|by eauto|]; cycle 1.
  { intros operand Hop. unfold get. by rewrite Hop. }
  rewrite (guard_is_operator_test val ops "$gte"
             (JS.ge val (get ops "$gte"))); [|done|by eauto|]; cycle 1.
  { intros operand Hop. unfold get. by rewrite Hop. }
  rewrite (guard_is_operator_test val ops "$lt"
             (JS.lt val (get ops "$lt"))); [|done|by eauto|]; cycle 1.
  { intros operand Hop. unfold get. by rewrite Hop. }
  rewrite (guard_is_operator_test val ops "$lte"
             (JS.le val (get ops "$lte"))); [|done|by eauto|]; cycle 1.
  { intros operand Hop. unfold get. by rewrite Hop. }
  assert ((if RedisModel.defined (get ops "$in")
           then try found <- RedisModel.includes (get ops "$in") val;
                Ok (negb found)
           else Ok false) = Ok (negb (operator_test val ops "$in"))) as ->.
  { unfold operator_test, get.
    destruct (ops !! "$in") as [operand|] eqn:Hop; [|done].
    by destruct (Hin operand eq_refl) as [xs ->]. }
  assert ((if RedisModel.defined (get ops "$nin")
           then RedisModel.includes (get ops "$nin") val
           else Ok false) = Ok (negb (operator_test val ops "$nin"))) as ->.
  { unfold operator_test, get.
    destruct (ops !! "$nin") as [operand|] eqn:Hop; [|done].
    destruct (Hnin operand eq_refl) as [xs ->]. unfold Model.switch_op. simpl.
    by rewrite negb_involutive. }
  assert (RedisModel.defined (get ops "$ne")
          && JS.strict_equal val (get ops "$ne")
          = negb (operator_test val ops "$ne")) as ->.
  { unfold operator_test, get.
    destruct (ops !! "$ne") as [operand|] eqn:Hop; [|done].
    rewrite defined_true by (by eapply Hdef). unfold Model.switch_op. simpl.
    by rewrite negb_involutive. }
  simpl.
  by destruct (operator_test val ops "$gt"), (operator_test val ops "$gte"),
    (operator_test val ops "$lt"), (operator_test val ops "$lte"),
    (operator_test val ops "$in"), (operator_test val ops "$nin"),
    (operator_test val ops "$ne").
Qed.

(** Property X28.
    On a query whose operator objects hold only the seven operators, with
    operands that are not [undefined] and arrays for [$in] and [$nin],
    [RedisModel._matches] does not throw and returns what
    [Model._matchesQuery] returns. *)
Theorem evaluators_agree_on_well_formed_queries (doc : object) (Q : query) :
  well_formed Q →
  RedisModel._matches doc Q = Ok (Model._matchesQuery doc Q).
Proof.
  induction Q as [|[field cond] rest IH]; intros Hwf; [done|].
  assert (RedisModel._matches doc rest = Ok (Model._matchesQuery doc rest))
    as IH'.
  { apply IH. intros f ops Hin. apply (Hwf f ops). by apply elem_of_cons; right. }
  cbn [RedisModel._matches Model._matchesQuery forallb Model.matches_field].
  fold (Model._matchesQuery doc rest). rewrite IH'.
  destruct cond as [| |b|n|s|xs|ops|member]; simpl; rewrite ?andb_false_r;
    try (by destruct (JS.strict_equal _ _)).
  destruct (Hwf field ops) as (Hops & Hin & Hnin); [by apply elem_of_cons; left|].
  rewrite check_operators_is_switch by done. simpl.
  by destruct (forallb _ _).
Qed.

End AgreementFacts.

Section BasicAgreementFacts.
Context {rt : Runtime}.

(** The inner loop of the [find] of src/redis-orm.ts, which never leaves
    early, computes on a query of its type the conjunction that
    [RedisModel._matches] computes with early returns. *)
Lemma basic_match_loop_is_matches doc (Q : query) match_ :
  basic_query Q →
  ∃ b, RedisModel._matches doc Q = Ok b ∧
       RedisModelBasic.match_loop doc Q match_ = Ok (match_ && b).
Proof.
  revert match_. induction Q as [|[field cond] rest IH]; intros match_ Hq.
  { exists true. by rewrite andb_true_r. }
  assert (∀ m, ∃ b, RedisModel._matches doc rest = Ok b ∧
                    RedisModelBasic.match_loop doc rest m = Ok (m && b))
    as IH'.
  { intros m. apply IH. intros f c Hin. apply (Hq f c).
    by apply elem_of_cons; right. }
  destruct (Hq field cond) as [Harray Hops]; [by apply elem_of_cons; left|].
  cbn [RedisModel._matches RedisModelBasic.match_loop].
  destruct cond as [| |b|n|s|xs|ops|member];
    try (cbn [JS.typeof JS.strict_equal JS.Array_isArray String.eqb
              Ascii.eqb Bool.eqb andb negb];
         match goal with
         | |- context [RedisModelBasic.match_loop doc rest ?m] =>
             destruct (IH' m) as (b' & -> & ->)
         end;
         destruct (JS.strict_equal _ _); simpl;
         [by exists b'|exists false; by rewrite andb_false_r]).
  - by destruct (Harray xs).
  - destruct (Hops ops eq_refl) as (Hgte & Hlte & Hnin & Hne & Hin).
    cbn [JS.typeof JS.strict_equal JS.Array_isArray JS.named_properties
         String.eqb Ascii.eqb Bool.eqb andb negb].
    unfold RedisModel.check_operators. rewrite Hgte, Hlte, Hnin, Hne.
    cbn [RedisModel.defined JS.strict_equal negb andb].
    set (G := RedisModel.defined (get ops "$gt")
              && negb (JS.gt (get doc field) (get ops "$gt"))).
    set (L := RedisModel.defined (get ops "$lt")
              && negb (JS.lt (get doc field) (get ops "$lt"))).
    assert (∃ missing,
              (if RedisModel.defined (get ops "$in")
               then try found <- RedisModel.includes (get ops "$in")
                                   (get doc field);
                    Ok (negb found)
               else Ok false) = Ok missing) as [missing ->].
    { destruct Hin as [-> | [xs ->]]; simpl; by eexists. }
    cbn [and_then].
    match goal with
    | |- context [RedisModelBasic.match_loop doc rest ?m] =>
        destruct (IH' m) as (b' & -> & ->)
    end.
    destruct G, L, missing; simpl;
      first [by exists b' | exists false; by rewrite andb_false_r].
Qed.

Lemma basic_find_loop_is_find_loop (Q : query) keys results w :
  basic_query Q →
  RedisModelBasic.find_loop Q keys results w =
  RedisModel.find_loop Q keys results w.
Proof.
  intros Hq. revert results.
  induction keys as [|key keys IH]; intros results; [done|].
  simpl. unfold bind, Redis.get, parse, lift.
  destruct (Redis.falsy _); [apply IH|].
  destruct (JSON_parse _) as [doc|]; simpl; [|done].
  destruct (basic_match_loop_is_matches doc Q true Hq) as (b & -> & ->).
  simpl. destruct b; apply IH.
Qed.

Lemma basic_deleteMany_loop_is this docs count w :
  RedisModelBasic.deleteMany_loop this docs count w =
  RedisModel.deleteMany_loop
    (RedisModel.Build (RedisModelBasic.modelName this)) docs count w.
Proof.
  revert count w. induction docs as [|doc docs IH]; intros count w; [done|].
  simpl. destruct (negb _); [apply IH|].
  unfold bind, Redis.del. apply IH.
Qed.

Lemma basic_updateMany_loop_is this update docs count w :
  RedisModelBasic.updateMany_loop this update docs count w =
  RedisModel.updateMany_loop
    (RedisModel.Build (RedisModelBasic.modelName this)) update docs count w.
Proof.
  revert count w. induction docs as [|doc docs IH]; intros count w; [done|].
  simpl. destruct (negb _); [apply IH|].
  unfold bind, Redis.set. apply IH.
Qed.

(** Property X29.
    On the queries of its type ([$gt], [$lt], [$in] and equality with a
    value that is no array), the model of src/redis-orm.ts does what
    [RedisModel] does: [find], [findById], [deleteMany], [updateMany] and
    [countDocuments] return the same and leave the same keyspace. *)
Theorem RedisModelBasic_agrees_with_RedisModel
    (this : RedisModelBasic.t) (Q : query) (P : object) (id : string)
    (w : world) :
  basic_query Q →
  let full := RedisModel.Build (RedisModelBasic.modelName this) in
  RedisModelBasic.find this Q w = RedisModel.find full Q w ∧
  RedisModelBasic.findById this id w = RedisModel.findById full id w ∧
  RedisModelBasic.deleteMany this Q w = RedisModel.deleteMany full Q w ∧
  RedisModelBasic.updateMany this Q P w = RedisModel.updateMany full Q P w ∧
  RedisModelBasic.countDocuments this Q w
    = RedisModel.countDocuments full Q w.
Proof.
  intros Hq full.
  assert (RedisModelBasic.find this Q w = RedisModel.find full Q w) as Hfind.
  { unfold RedisModelBasic.find, RedisModel.find, bind.
    destruct (Redis.getRedisClient w) as [[[]|e] w1]; [|done].
    destruct (Redis.keys _ w1) as [[keys|e] w2]; [|done].
    by apply basic_find_loop_is_find_loop. }
  split; [done|]. split; [done|]. split; [|split].
  - unfold RedisModelBasic.deleteMany, RedisModel.deleteMany, bind.
    rewrite Hfind. destruct (RedisModel.find full Q w) as [[docs|e] w1]; [|done].
    destruct (Redis.getRedisClient w1) as [[[]|e] w2]; [|done].
    apply basic_deleteMany_loop_is.
  - unfold RedisModelBasic.updateMany, RedisModel.updateMany, bind.
    rewrite Hfind. destruct (RedisModel.find full Q w) as [[docs|e] w1]; [|done].
    destruct (Redis.getRedisClient w1) as [[[]|e] w2]; [|done].
    apply basic_updateMany_loop_is.
  - unfold RedisModelBasic.countDocuments, RedisModel.countDocuments, bind.
    by rewrite Hfind.
Qed.

End BasicAgreementFacts.

Lemma adults_well_formed :
  well_formed [("age", VObject {[ "$gte" := VNumber (of_Z 30) ]})].
Proof.
  intros field ops Hin%list_elem_of_singleton.
  assert (ops = {[ "$gte" := VNumber (of_Z 30) ]}) as -> by congruence.
  split; [|split].
  - intros op operand [<- <-]%lookup_singleton_Some. split; [|done].
    unfold known_operators. rewrite !elem_of_cons. tauto.
  - intros operand Hop. by rewrite lookup_singleton_ne in Hop.
  - intros operand Hop. by rewrite lookup_singleton_ne in Hop.
Qed.

Lemma evaluators_agree_on_well_formed_queries_witness :
  let R := Fixture.runtime [] in
  let Q := [("age", VObject {[ "$gte" := VNumber (of_Z 30) ]})] in
  well_formed Q ∧
  RedisModel._matches (Fixture.bob "id") Q
    = Ok (Model._matchesQuery (Fixture.bob "id") Q).
Proof.
  intros R Q. split; [exact adults_well_formed|].
  exact (evaluators_agree_on_well_formed_queries (Fixture.bob "id") Q
           adults_well_formed).
Defined.

Lemma older_than_26_basic_query :
  basic_query [("age", VObject {[ "$gt" := VNumber (of_Z 26) ]})].
Proof.
  intros field cond Hin%list_elem_of_singleton.
  assert (cond = VObject {[ "$gt" := VNumber (of_Z 26) ]}) as ->
    by congruence.
  split; [done|]. intros ops [= <-].
  repeat split; try done. by left.
Qed.

Lemma RedisModelBasic_agrees_with_RedisModel_witness :
  let R := Fixture.runtime (Fixture.users "id") in
  let Q := [("age", VObject {[ "$gt" := VNumber (of_Z 26) ]})] in
  let w := Fixture.world_of "id" in
  basic_query Q ∧
  RedisModelBasic.find (RedisModelBasic.Build "User") Q w
    = RedisModel.find Fixture.UserModel Q w.
Proof.
  intros R Q w. split; [exact older_than_26_basic_query|].
  exact (proj1 (RedisModelBasic_agrees_with_RedisModel
                  (RedisModelBasic.Build "User") Q ∅ "1" w
                  older_than_26_basic_query)).
Defined.

(** ** A text that does not decode *)

Section MalformedEntryFacts.
Context {rt : Runtime}.

Lemma fetch_loop_malformed Q keys results w key raw :
  key ∈ keys → redis w !! key = Some raw → raw ≠ "" →
  JSON_parse raw = None →
  Model.fetch_loop Q keys results w = (Throw SyntaxError, w).
Proof.
  intros Hin Hget Hne Hparse. revert results.
  induction keys as [|k keys IH]; intros results.
  { by apply elem_of_nil in Hin. }
  simpl. unfold bind at 1, Redis.get.
  destruct (decide (k = key)) as [->|Hk].
  - rewrite Hget, falsy_text by done. unfold bind, parse. simpl.
    by rewrite Hparse.
  - assert (key ∈ keys) as Hin'.
    { apply elem_of_cons in Hin as [Heq|?]; [congruence|done]. }
    destruct (Redis.falsy _); [by apply IH|].
    unfold bind, parse.
    destruct (JSON_parse (default "" (redis w !! k))); simpl; [|done].
    destruct (Model._matchesQuery _ _); by apply IH.
Qed.

(** Property X30.
    One entry under the prefix of the collection whose text is not JSON
    makes every method that scans throw the [SyntaxError] of [JSON.parse],
    whatever the query: [find] with any chain, [findOne],
    [countDocuments], [updateMany] and [deleteMany]; nothing is written. *)
Theorem Model_scan_throws_on_a_malformed_entry
    (this : Model.t) (Q : query) (P : object)
    (calls : list QueryBuilder.call) (w : world) (key raw : string) :
  String.prefix (Model.name this +:+ ":") key = true →
  redis w !! key = Some raw → raw ≠ "" → JSON_parse raw = None →
  QueryBuilder.exec (QueryBuilder.chain (Model.find this Q) calls) w
    = (Throw SyntaxError, w) ∧
  Model.findOne this Q w = (Throw SyntaxError, w) ∧
  Model.countDocuments this Q w = (Throw SyntaxError, w) ∧
  Model.updateMany this Q P w = (Throw SyntaxError, w) ∧
  Model.deleteMany this Q w = (Throw SyntaxError, w).
Proof.
  intros Hp Hget Hne Hparse.
  assert (Model.fetcher this Q w = (Throw SyntaxError, w)) as Hfetch.
  { unfold Model.fetcher, bind.
    destruct (keys_spec (Model.name this +:+ ":") w) as (keys & -> & Hmem).
    apply (fetch_loop_malformed Q keys [] w key raw); try done.
    apply Hmem. eauto. }
  assert (∀ b, QueryBuilder.dataFetcher b = Model.fetcher this Q →
               QueryBuilder.exec b w = (Throw SyntaxError, w)) as Hexec.
  { intros b Hb. unfold QueryBuilder.exec, bind. by rewrite Hb, Hfetch. }
  split; [|split; [|split; [|split]]].
  - apply Hexec. by rewrite chain_dataFetcher.
  - unfold Model.findOne, bind. by rewrite Hexec.
  - unfold Model.countDocuments, bind. by rewrite Hexec.
  - unfold Model.updateMany, bind. by rewrite Hexec.
  - unfold Model.deleteMany, bind. by rewrite Hexec.
Qed.

End MalformedEntryFacts.

Lemma Model_scan_throws_on_a_malformed_entry_witness :
  let R := Fixture.runtime (Fixture.users "_id") in
  let text := "{name:" in
  let w := Redis.set_redis (insert "User:4" text) (Fixture.world_of "_id") in
  String.prefix "User:" "User:4" = true ∧
  redis w !! "User:4" = Some text ∧ text ≠ "" ∧ JSON_parse text = None ∧
  Model.deleteMany Fixture.Users [] w = (Throw SyntaxError, w).
Proof.
  intros R text w.
  assert (redis w !! "User:4" = Some text) as Hget
    by (vm_compute; reflexivity).
  assert (text ≠ "") as Hne by discriminate.
  assert (JSON_parse text = None) as Hparse by (vm_compute; reflexivity).
  split; [reflexivity|]. split; [exact Hget|]. split; [exact Hne|].
  split; [exact Hparse|].
  exact (proj2 (proj2 (proj2 (proj2
    (Model_scan_throws_on_a_malformed_entry Fixture.Users [] ∅ [] w
       "User:4" text eq_refl Hget Hne Hparse))))).
Defined.
